(** * The RemoteSource registry of pythonz (apps/integration/base.py)

    A shallow embedding of the class [RemoteSource]: the class attributes
    [realm], [active], [alias], [title], the shared [registry]
    (a [defaultdict(dict)]), the declaration-time hook [__init_subclass__],
    the class methods [get_sources], [get_source], [get_enum] and the
    instance method [fetch_list].

    Python objects are modelled as follows.
    - A class object is a value of [Class]: the root [RemoteSource] or a
      subclass that records its base class and the attributes its body
      assigns.  Attribute access walks the chain of bases, as Python's
      lookup along the MRO does for single inheritance.  Every class object
      carries a serial number, so two class statements with equal bodies
      still give two different objects.
    - An inner dictionary of the registry is an association list in
      insertion order, with Python's [d[k] = v] (an existing key keeps its
      place) and [d.get(k)].
    - The outer [defaultdict] is a [gmap]; reading a missing key stores a
      fresh empty dictionary under it, as [defaultdict.__missing__] does.
    - Methods run in a state-and-exception monad over the interpreter state
      (the classes declared so far and the registry). *)

From stdpp Require Import gmap strings list fin_maps.

Open Scope string_scope.
Open Scope list_scope.

(** ** Exceptions and results *)

Inductive exn : Type :=
| NotImplementedError
| TypeError
| ValueError.

Inductive result (A : Type) : Type :=
| Ok (a : A)
| Raise (e : exn).
Arguments Ok {A} a.
Arguments Raise {A} e.

(** ** Class objects *)

(** One record fetched from an external source: a [dict] with string keys. *)
Definition record : Type := list (string * string).

(** The body of an override of [fetch_list], as a subclass may write it:
    [return rows], [raise e], or [return rows + super().fetch_list()], which
    hands on to the next definition in the chain of bases. *)
Inductive MethodBody : Type :=
| Returns (rows : list record)
| Raises (e : exn)
| ExtendsSuper (rows : list record).

(** What a class body assigns.  [None] means the body leaves the attribute
    alone, so that the value of a base class shows through.  Bodies that
    replace [registry] or [__init_subclass__] are not considered: base.py has
    one registry and one hook, shared by all subclasses. *)
Record ClassBody : Type := {
  body_realm : option string;
  body_active : option bool;
  body_alias : option string;
  body_title : option string;
  body_fetch_list : option MethodBody
}.

Inductive Class : Type :=
| RemoteSource
| Subclass (serial : nat) (base : Class) (body : ClassBody).

(** The body that assigns nothing: [class X(Base): pass]. *)
Definition pass : ClassBody :=
  {| body_realm := None; body_active := None; body_alias := None;
     body_title := None; body_fetch_list := None |}.

(** Lookup of an attribute in the subclasses of the chain, nearest first. *)
Fixpoint mro_lookup {A : Type} (field : ClassBody -> option A) (cls : Class)
  : option A :=
  match cls with
  | RemoteSource => None
  | Subclass _ base body =>
      match field body with
      | Some v => Some v
      | None => mro_lookup field base
      end
  end.

(** [getattr]: the nearest assignment, else the value [RemoteSource] gives. *)
Definition getattr {A : Type} (field : ClassBody -> option A) (dflt : A)
  (cls : Class) : A :=
  default dflt (mro_lookup field cls).

(** The class attributes with the defaults of [RemoteSource]. *)
Definition cls_realm : Class -> string := getattr body_realm "".
Definition cls_active : Class -> bool := getattr body_active true.
Definition cls_alias : Class -> string := getattr body_alias "".
Definition cls_title : Class -> string := getattr body_title "".

(** Truth value of a [str]: the empty string is false. *)
Definition truthy (s : string) : bool :=
  match s with
  | EmptyString => false
  | String _ _ => true
  end.

(** ** Dictionaries in insertion order *)

(** A [dict] with string keys. *)
Abbreviation dict V := (list (string * V)) (only parsing).

Section Dict.
Context {V : Type}.

(** [d.get(k)] *)
Fixpoint dict_get (d : dict V) (k : string) : option V :=
  match d with
  | [] => None
  | (k', v) :: d' => if decide (k' = k) then Some v else dict_get d' k
  end.

(** [d[k] = v]: an existing key is updated where it stands, a new key goes
    to the end. *)
Fixpoint dict_setitem (d : dict V) (k : string) (v : V) : dict V :=
  match d with
  | [] => [(k, v)]
  | (k', v') :: d' =>
      if decide (k' = k) then (k, v) :: d'
      else (k', v') :: dict_setitem d' k v
  end.

(** [d.items()] and [d.keys()] *)
Definition dict_items (d : dict V) : list (string * V) := d.
Definition dict_keys (d : dict V) : list string := d.*1.

(** Number of entries stored under [k]. *)
Definition dict_count (d : dict V) (k : string) : nat :=
  length (filter (λ kv, kv.1 = k) d).
End Dict.

(** ** Interpreter state *)

(** An inner dict of the registry: alias to class object. *)
Abbreviation Bucket := (dict Class) (only parsing).

Record State : Type := mkState {
  classes : list Class;
  registry : gmap string Bucket
}.

(** At import time of base.py: only [RemoteSource] exists and its
    [registry] is an empty [defaultdict]. *)
Definition init : State := {| classes := []; registry := ∅ |}.

Definition set_registry (reg : gmap string Bucket) (st : State) : State :=
  {| classes := classes st; registry := reg |}.

Definition add_class (cls : Class) (st : State) : State :=
  {| classes := cls :: classes st; registry := registry st |}.

(** ** The monad of methods: state passing, exceptions keep the state *)

Definition M (A : Type) : Type := State -> result A * State.

Definition ret {A : Type} (a : A) : M A := λ st, (Ok a, st).

Definition bind {A B : Type} (m : M A) (k : A -> M B) : M B :=
  λ st,
    match m st with
    | (Ok a, st') => k a st'
    | (Raise e, st') => (Raise e, st')
    end.

Definition lift {A : Type} (r : result A) : M A := λ st, (r, st).

Notation "'do' x <- m ; k" := (bind m (λ x, k))
  (at level 10, x name, m at level 100, k at level 200).

(** ** The registry: [defaultdict(dict)] *)

(** [registry[key]]: a missing key is first bound to a new empty dict. *)
Definition registry_getitem (key : string) : M Bucket :=
  λ st,
    match registry st !! key with
    | Some d => (Ok d, st)
    | None => (Ok [], set_registry (<[key := []]> (registry st)) st)
    end.

(** [registry[key][alias] = cls]: the dict found under [key] is updated in
    place, so the registry sees the new entry. *)
Definition registry_setitem (key alias : string) (cls : Class) : M unit :=
  do d <- registry_getitem key;
  λ st, (Ok tt, set_registry (<[key := dict_setitem d alias cls]> (registry st)) st).

(** ** RemoteSource *)

(** [__init_subclass__(cls)] *)
Definition init_subclass (cls : Class) : M unit :=
  let alias := cls_alias cls in
  if truthy alias then registry_setitem (cls_realm cls) alias cls
  else ret tt.

(** The class object that a class statement creates in state [st]. *)
Definition new_class (st : State) (base : Class) (body : ClassBody) : Class :=
  Subclass (length (classes st)) base body.

(** The statement [class X(base): body].  The class object is created, the
    hook runs on it, and the class joins the declared ones. *)
Definition class_stmt (base : Class) (body : ClassBody) : M Class :=
  λ st,
    let cls := new_class st base body in
    match init_subclass cls st with
    | (Ok _, st') => (Ok cls, add_class cls st')
    | (Raise e, st') => (Raise e, st')
    end.

(** [cls.get_sources()] *)
Definition get_sources (cls : Class) : M Bucket :=
  registry_getitem (cls_realm cls).

(** [cls.get_source(alias)] *)
Definition get_source (cls : Class) (alias : string) : M (option Class) :=
  do d <- get_sources cls;
  ret (dict_get d alias).

(** ** Enumerations

    [get_enum] builds its result with [models.TextChoices] (Django) and
    [enum.unique] (standard library).  Both live outside base.py; they are
    modelled here on a list of [(name, (value, label))] items, as far as
    [get_enum] uses them:
    - the functional API binds the names in order.  A [_sunder_] name that
      is no hook of [enum] is refused ([ValueError]); a name bound twice is
      refused ([TypeError]); after all names are bound, the names "mro" and
      "" are refused ([ValueError]);
    - a name whose value is already the value of an earlier member becomes
      a second name (an alias) of that member and not a member of its own;
    - [unique] refuses an enumeration that has such second names
      ([ValueError]); [TextChoices] applies the same check by itself.
    Some names have a meaning of their own for [enum] or for Django's
    [Choices]: the hooks among the [_sunder_] names, [__dunder__] names,
    private names of the class, and the names of the attributes of
    [Choices].  What a call does with one of them depends on the name and on
    the versions of Python and Django, and is not modelled: the answer of
    the model is then [None], and [Some] result otherwise. *)

Record Member : Type := {
  member_name : string;
  member_value : string;
  member_label : string
}.

Record EnumType : Type := {
  enum_name : string;
  enum_members : list Member;          (* what iteration yields, in order *)
  enum_aliases : list (string * string) (* second name, name of its member *)
}.

Definition Item : Type := string * (string * string).

Definition is_underscore (a : Ascii.ascii) : bool :=
  bool_decide (a = Ascii.Ascii true true true true true false true false).

(** [_is_sunder(name)]: longer than two, one underscore at either end. *)
Definition is_sunder (name : string) : bool :=
  match String.list_ascii_of_string name,
        rev (String.list_ascii_of_string name) with
  | a :: b :: _ :: _, z :: y :: _ =>
      is_underscore a && is_underscore z
      && negb (is_underscore b) && negb (is_underscore y)
  | _, _ => false
  end.

(** [_is_dunder(name)]: longer than four, two underscores at either end. *)
Definition is_dunder (name : string) : bool :=
  match String.list_ascii_of_string name,
        rev (String.list_ascii_of_string name) with
  | a :: b :: c :: _ :: _ :: _, z :: y :: x :: _ =>
      is_underscore a && is_underscore b
      && is_underscore z && is_underscore y
      && negb (is_underscore c) && negb (is_underscore x)
  | _, _ => false
  end.

(** The [_sunder_] names that [enum] reads as hooks, over its versions. *)
Definition sunder_hooks : list string :=
  ["_order_"; "_create_pseudo_member_"; "_generate_next_value_"; "_missing_";
   "_ignore_"; "_numeric_repr_"; "_iter_member_"; "_iter_member_by_value_";
   "_iter_member_by_def_"; "_add_alias_"; "_add_value_alias_"].

(** The attributes that Django's [Choices] and its metaclass define. *)
Definition choices_names : list string :=
  ["label"; "labels"; "values"; "names"; "choices";
   "do_not_call_in_templates"].

(** What binding a name in the class dict of an enumeration amounts to. *)
Inductive NameKind : Type :=
| MemberName    (* the name of a member *)
| ReservedName  (* refused with ValueError *)
| SpecialName.  (* a name with a meaning of its own: not modelled *)

Definition name_kind (cls_name name : string) : NameKind :=
  if String.prefix ("_" +:+ cls_name +:+ "__") name then SpecialName
  else if is_sunder name then
    if bool_decide (name ∈ sunder_hooks) then SpecialName else ReservedName
  else if is_dunder name then SpecialName
  else if bool_decide (name ∈ choices_names) then SpecialName
  else MemberName.

(** The names refused once all names are bound. *)
Definition invalid_names : list string := ["mro"; ""].

(** Binding the names of the items in order, [member_names] being the names
    bound before. *)
Fixpoint classdict_fill (cls_name : string) (items : list Item)
  (member_names : list string) : option (result unit) :=
  match items with
  | [] => Some (Ok tt)
  | (name, _) :: rest =>
      match name_kind cls_name name with
      | SpecialName => None
      | ReservedName => Some (Raise ValueError)
      | MemberName =>
          if bool_decide (name ∈ member_names) then Some (Raise TypeError)
          else classdict_fill cls_name rest (name :: member_names)
      end
  end.

(** The members and second names that a list of items gives. *)
Fixpoint enum_fill (items : list Item) (ms : list Member)
  (als : list (string * string)) : list Member * list (string * string) :=
  match items with
  | [] => (ms, als)
  | (name, (value, label)) :: rest =>
      match List.find (λ m, bool_decide (member_value m = value)) ms with
      | Some m => enum_fill rest ms (als ++ [(name, member_name m)])
      | None =>
          enum_fill rest
            (ms ++ [{| member_name := name; member_value := value;
                       member_label := label |}])
            als
      end
  end.

(** The functional API: the enumeration made of the items. *)
Definition enum_create (cls_name : string) (items : list Item)
  : option (result EnumType) :=
  match classdict_fill cls_name items [] with
  | None => None
  | Some (Raise e) => Some (Raise e)
  | Some (Ok _) =>
      if existsb (λ name, bool_decide (name ∈ invalid_names)) items.*1
      then Some (Raise ValueError)
      else
        let '(ms, als) := enum_fill items [] [] in
        Some (Ok {| enum_name := cls_name; enum_members := ms;
                    enum_aliases := als |})
  end.

(** [unique(enumeration)] *)
Definition unique (e : EnumType) : result EnumType :=
  match enum_aliases e with
  | [] => Ok e
  | _ :: _ => Raise ValueError
  end.

(** [models.TextChoices(name, items)] *)
Definition TextChoices (name : string) (items : list Item)
  : option (result EnumType) :=
  match enum_create name items with
  | Some (Ok e) => Some (unique e)
  | other => other
  end.

(** [cls.get_enum()]: the answer about the enumeration, and the state. *)
Definition get_enum (cls : Class) : State -> option (result EnumType) * State :=
  λ st,
    match get_sources cls st with
    | (Ok d, st') =>
        (match TextChoices "Source"
                 (map (λ '(alias, source_cls),
                         (alias, (alias, cls_title source_cls)))
                      (dict_items d)) with
         | Some (Ok e) => Some (unique e)
         | other => other
         end, st')
    | (Raise e, st') => (Some (Raise e), st')
    end.


(** ** Programs over the registry *)

(** A class is usable in a statement once it has been declared. *)
Definition declared (st : State) (cls : Class) : Prop :=
  cls = RemoteSource ∨ cls ∈ classes st.

(** The states a program can reach from [init] by class statements and by
    calls of the class methods on declared classes.  These are the only
    operations of base.py that touch the registry: a program that writes to
    [registry], to a dict it got from [get_sources], or to the attributes of
    a declared class is not covered. *)
Inductive reachable : State -> Prop :=
| reach_init : reachable init
| reach_class st base body :
    reachable st -> declared st base ->
    reachable (class_stmt base body st).2
| reach_get_sources st cls :
    reachable st -> declared st cls ->
    reachable (get_sources cls st).2
| reach_get_source st cls alias :
    reachable st -> declared st cls ->
    reachable (get_source cls alias st).2
| reach_get_enum st cls :
    reachable st -> declared st cls ->
    reachable (get_enum cls st).2.

(** The registry invariant: every inner dict has pairwise distinct keys, and
    an entry under [(r, a)] holds a declared class whose realm is [r] and
    whose alias is [a], a non-empty string. *)
Definition entry_ok (st : State) (r : string) (kv : string * Class) : Prop :=
  kv.2 ∈ classes st ∧ cls_realm kv.2 = r ∧ cls_alias kv.2 = kv.1 ∧ kv.1 ≠ "".

Definition wf (st : State) : Prop :=
  ∀ r d, registry st !! r = Some d ->
    NoDup (dict_keys d) ∧ Forall (entry_ok st r) d.

(** The dict that the registry holds for a realm, the empty one when the realm
    has no key yet: what [get_sources] hands out. *)
Definition bucket_of (st : State) (r : string) : Bucket :=
  default [] (registry st !! r).

(** The registry after a class statement. *)
Definition registered (cls : Class) (st : State) : gmap string (dict Class) :=
  if truthy (cls_alias cls)
  then <[cls_realm cls :=
           dict_setitem (bucket_of st (cls_realm cls)) (cls_alias cls) cls]>
         (registry st)
  else registry st.

(** The items and the enumeration that [get_enum] makes of a dict. *)
Definition to_member (it : Item) : Member :=
  {| member_name := it.1; member_value := it.2.1; member_label := it.2.2 |}.

Definition item_of (kv : string * Class) : Item :=
  (kv.1, (kv.1, cls_title kv.2)).

Definition enum_of (d : dict Class) : EnumType :=
  {| enum_name := "Source";
     enum_members := (to_member ∘ item_of) <$> d;
     enum_aliases := [] |}.

(** Every item has its name as its value, as the items of [get_enum] do. *)
Definition names_are_values (items : list Item) : Prop :=
  items.*1 = (λ it : Item, it.2.1) <$> items.

(** What [get_enum] answers for a list of items: [TextChoices], then
    [unique]. *)
Definition enum_answer (items : list Item) : option (result EnumType) :=
  match TextChoices "Source" items with
  | Some (Ok e) => Some (unique e)
  | other => other
  end.

(** An alias that becomes the name of a member, and one that makes the
    construction of the enumeration fail. *)
Definition member_alias (alias : string) : bool :=
  match name_kind "Source" alias with
  | MemberName => negb (bool_decide (alias ∈ invalid_names))
  | _ => false
  end.

Definition reserved_alias (alias : string) : bool :=
  match name_kind "Source" alias with
  | MemberName => bool_decide (alias ∈ invalid_names)
  | ReservedName => true
  | SpecialName => false
  end.



(** ** A scenario

    Classes as a program of the site would declare them: an abstract base
    for the realm of vacancies, two sources with aliases, a second class
    under the alias of the first, a class with an alias and no realm. *)

Definition vacancy_body : ClassBody :=
  {| body_realm := Some "vacancy"; body_active := None; body_alias := None;
     body_title := None; body_fetch_list := None |}.

Definition hh_body : ClassBody :=
  {| body_realm := Some "vacancy"; body_active := None;
     body_alias := Some "hh"; body_title := Some "HeadHunter";
     body_fetch_list := Some (Returns [[("title", "Python developer")]]) |}.

Definition lnk_body : ClassBody :=
  {| body_realm := Some "vacancy"; body_active := None;
     body_alias := Some "lnk"; body_title := Some "LinkedIn";
     body_fetch_list := Some (Returns []) |}.

Definition hh2_body : ClassBody :=
  {| body_realm := Some "vacancy"; body_active := Some false;
     body_alias := Some "hh"; body_title := Some "hh.ru";
     body_fetch_list := Some (Returns []) |}.

Definition no_realm_body : ClassBody :=
  {| body_realm := None; body_active := None; body_alias := Some "hh";
     body_title := Some "HeadHunter"; body_fetch_list := None |}.

(** The first class declared after import, for each of the bodies. *)
Definition Vacancy : Class := new_class init RemoteSource vacancy_body.
Definition SourceA : Class := new_class init RemoteSource hh_body.
Definition NoRealm : Class := new_class init RemoteSource no_realm_body.

(** The state after [class SourceA(RemoteSource)], and the class that a
    second statement declares there. *)
Definition after_SourceA : State := (class_stmt RemoteSource hh_body init).2.
Definition SourceA2 : Class := new_class after_SourceA RemoteSource hh2_body.
Definition SourceB : Class := new_class after_SourceA RemoteSource lnk_body.
Definition SubA : Class := new_class after_SourceA SourceA pass.

(** The state after [class SourceB(RemoteSource)] on top of that. *)
Definition after_SourceB : State :=
  (class_stmt RemoteSource lnk_body after_SourceA).2.


Definition after_Vacancy : State :=
  (class_stmt RemoteSource vacancy_body init).2.
Definition VacancySource : Class := new_class after_Vacancy Vacancy hh_body.
Definition after_VacancySource : State :=
  (class_stmt Vacancy hh_body after_Vacancy).2.

(** Sources whose aliases the enumeration machinery refuses. *)
Definition mro_body : ClassBody :=
  {| body_realm := Some "vacancy"; body_active := None;
     body_alias := Some "mro"; body_title := Some "Method resolution";
     body_fetch_list := Some (Returns []) |}.

Definition sunder_body : ClassBody :=
  {| body_realm := Some "vacancy"; body_active := None;
     body_alias := Some "_hh_"; body_title := Some "HeadHunter";
     body_fetch_list := Some (Returns []) |}.

(** ** Further notions for the registry *)

(** The most recently declared class with a given realm and a given
    non-empty alias; [classes] holds the newest class first. *)
Definition latest_declared (st : State) (r a : string) : option Class :=
  List.find
    (λ c, truthy (cls_alias c) && bool_decide (cls_realm c = r)
          && bool_decide (cls_alias c = a))
    (classes st).

(** One class statement or one call of a class method. *)
Inductive step : State -> State -> Prop :=
| step_class st base body :
    declared st base -> step st (class_stmt base body st).2
| step_get_sources st cls :
    declared st cls -> step st (get_sources cls st).2
| step_get_source st cls alias :
    declared st cls -> step st (get_source cls alias st).2
| step_get_enum st cls :
    declared st cls -> step st (get_enum cls st).2.

(** A class body with another assignment to [active]. *)
Definition with_active (a : option bool) (body : ClassBody) : ClassBody :=
  {| body_realm := body_realm body; body_active := a;
     body_alias := body_alias body; body_title := body_title body;
     body_fetch_list := body_fetch_list body |}.

(** * The views of pythonz (apps/views.py)

    The functions of views.py that compute something of their own are
    embedded here: the data of the index page, the filter and the page size
    of the PEP listing, the links of a category page and the outcome of a
    search.  What they get from Django, from other modules of the site or
    from the database is an argument: a query set is the list of its rows in
    the order the database returns them, a model object is its primary key. *)

Module Views.

(** A row of [ExternalResource], as far as [index] reads it. *)
Record ExternalResource : Type := {
  realm_name : string;
  external_pk : nat
}.

(** An entry of [additional]: an object of the realm's own model or an
    external resource. *)
Inductive Shown : Type :=
| OwnObject (pk : nat)
| External (e : ExternalResource).

(** A realm, as the views read it: [realm.show_on_main],
    [realm.model.get_actual()], whether [realm.model] has [categories],
    [realm.model.get_objects_in_category(category)],
    [realm.model.get_verbose_name_plural()] and [realm.get_names()]. *)
Record Realm : Type := {
  show_on_main : bool;
  get_actual : list nat;
  has_categories : bool;
  get_objects_in_category : nat -> list nat;
  get_verbose_name_plural : string;
  get_names : string * string
}.

(** One element of [realms_data]; [main] is [None] for the empty dict. *)
Record RealmData : Type := {
  data_cls : Realm;
  data_main : option nat;
  data_additional : list Shown
}.

(** [itertools.groupby(rows, key)] with every group made a list: the runs
    of consecutive rows with one key, in order. *)
Fixpoint groupby {A : Type} (key : A -> string) (l : list A)
  : list (string * list A) :=
  match l with
  | [] => []
  | x :: l' =>
      match groupby key l' with
      | (k, g) :: gs =>
          if decide (key x = k) then (k, x :: g) :: gs
          else (key x, [x]) :: (k, g) :: gs
      | [] => [(key x, [x])]
      end
  end.

(** [{k: v for k, v in pairs}]: a later pair replaces an earlier one with
    the same key. *)
Definition dict_of_pairs {V : Type} (pairs : list (string * V)) : dict V :=
  fold_left (λ d kv, dict_setitem d kv.1 kv.2) pairs [].

(** [externals] of [index]: the rows whose realm is a key of the registry of
    realms, grouped by [realm_name]. *)
Definition index_externals (realms_registry : dict Realm)
  (rows : list ExternalResource) : dict (list ExternalResource) :=
  let externals :=
    filter (λ e, realm_name e ∈ dict_keys realms_registry) rows in
  dict_of_pairs (groupby realm_name externals).

Definition max_additional : nat := 5.

(** The body of the loop of [index] for a realm that is shown. *)
Definition index_realm (externals : dict (list ExternalResource))
  (name : string) (realm : Realm) : RealmData :=
  let realm_externals := default [] (dict_get externals name) in
  let count_externals := length realm_externals in
  let count_locals :=
    if decide (count_externals < max_additional)
    then 1 + (max_additional - count_externals)
    else 1 in
  let realm_locals := take count_locals (get_actual realm) in
  match realm_locals with
  | main :: rest =>
      {| data_cls := realm; data_main := Some main;
         data_additional :=
           (OwnObject <$> rest)
           ++ (External <$> take max_additional realm_externals) |}
  | [] => {| data_cls := realm; data_main := None; data_additional := [] |}
  end.

(** The loop of [index] over [realms_registry.items()]. *)
Fixpoint index_loop (externals : dict (list ExternalResource))
  (items : list (string * Realm)) (realms_data : list RealmData)
  : list RealmData :=
  match items with
  | [] => realms_data
  | (name, realm) :: items' =>
      if show_on_main realm
      then index_loop externals items'
             (realms_data ++ [index_realm externals name realm])
      else index_loop externals items' realms_data
  end.

(** The element of [realms_data] for one item of the registry of realms. *)
Definition shown_entry (externals : dict (list ExternalResource))
  (item : string * Realm) : RealmData :=
  index_realm externals item.1 item.2.

(** [index(request)]: the [realms_data] handed to the template. *)
Definition index (realms_registry : dict Realm) (rows : list ExternalResource)
  : list RealmData :=
  index_loop (index_externals realms_registry rows)
    (dict_items realms_registry) [].

(** The loop of [CategoryListingView.get] for a category that was found:
    [realms_links], from the title of a realm to its plural name and its
    objects in the category. *)
Fixpoint realms_links_loop (category : nat) (realms : list Realm)
  (realms_links : dict (string * list nat)) : dict (string * list nat) :=
  match realms with
  | [] => realms_links
  | realm :: realms' =>
      if negb (has_categories realm)
      then realms_links_loop category realms' realms_links
      else
        let items := get_objects_in_category realm category in
        match items with
        | [] => realms_links_loop category realms' realms_links
        | _ :: _ =>
            let realm_title := get_verbose_name_plural realm in
            let plural := (get_names realm).2 in
            realms_links_loop category realms'
              (dict_setitem realms_links realm_title (plural, items))
        end
  end.

Definition realms_links (category : nat) (realms : list Realm)
  : dict (string * list nat) :=
  realms_links_loop category realms [].

(** The entry of [realms_links] that a realm gives, and the realms that give
    one: those whose model has categories and objects in the category. *)
Definition link_of (category : nat) (realm : Realm)
  : string * (string * list nat) :=
  (get_verbose_name_plural realm,
   ((get_names realm).2, get_objects_in_category realm category)).

Definition linked (category : nat) (realm : Realm) : Prop :=
  has_categories realm = true ∧ get_objects_in_category realm category ≠ [].

(** ** PepListingView *)

Section PepListing.
(** A row of the listing and the value of its field of a given name. *)
Context {Obj : Type} (field : string -> Obj -> Z).
(** [str.isdigit] and [int] on a string. *)
Context (isdigit : string -> bool) (int : string -> result Z).

(** The request, as the view reads and writes it: [request.GET.get(attr)]
    and [request.disable_paginator]. *)
Record Request : Type := {
  GET : string -> option string;
  disable_paginator : bool
}.

(** The request carries for [attr] a non-empty string of digits whose number
    [n] is one of [values]: the parameter that the filter takes up. *)
Definition accepted (request : Request) (attr : string) (values : list Z)
  (n : Z) : Prop :=
  ∃ val, GET request attr = Some val ∧ truthy val = true ∧ isdigit val = true
         ∧ int val = Ok n ∧ n ∈ values.

(** [apply_object_filter]: the loop over [attrs.items()], from the values of
    [applied] and [objects] before it. *)
Fixpoint apply_object_filter_loop (request : Request)
  (attrs : list (string * list Z)) (applied : bool) (objects : list Obj)
  : result (bool * list Obj) :=
  match attrs with
  | [] => Ok (applied, objects)
  | (attr, values) :: attrs' =>
      match GET request attr with
      | Some val =>
          if truthy val && isdigit val then
            match int val with
            | Ok n =>
                if bool_decide (n ∈ values)
                then apply_object_filter_loop request attrs' true
                       (filter (λ o, field attr o = n) objects)
                else apply_object_filter_loop request attrs' applied objects
            | Raise e => Raise e
            end
          else apply_object_filter_loop request attrs' applied objects
      | None => apply_object_filter_loop request attrs' applied objects
      end
  end.

Definition apply_object_filter (request : Request)
  (attrs : list (string * list Z)) (objects : list Obj)
  : result (bool * list Obj) :=
  apply_object_filter_loop request attrs false objects.

(** [get_paginator_objects], from the objects of the base class and the
    values of [PEP.Status] and [PEP.Type]: the objects returned and the
    request with [disable_paginator] set. *)
Definition get_paginator_objects (super_objects : list Obj)
  (Status_values Type_values : list Z) (request : Request)
  : result (list Obj * Request) :=
  match apply_object_filter request
          [("status", Status_values); ("type", Type_values)] super_objects with
  | Ok (applied, objects) =>
      Ok (objects, {| GET := GET request; disable_paginator := applied |})
  | Raise e => Raise e
  end.

(** [get_paginator_per_page], from [sys.maxsize] and the page size of the
    base class. *)
Definition get_paginator_per_page (maxsize super_per_page : Z)
  (request : Request) : Z :=
  if disable_paginator request then maxsize else super_per_page.
End PepListing.

(** ** search *)

(** What [search] answers with and what it records on the way. *)
Inductive Response : Type :=
| Redirect (location : string)
| Render (template : string) (search_term : string) (results : list nat)
         (results_len : nat).

Inductive Effect : Type :=
| ReferenceMissing_add (search_term : string)
| message_warning (text : string).

Section Search.
(** [search_models(text, ...)], [reverse(view name)] behind [redirect],
    [get_absolute_url()] of a result, [quote_plus] and
    [settings.YANDEX_SEARCH_ID] as text. *)
Context (search_models : string -> string * list nat).
Context (reverse : string -> string) (get_absolute_url : nat -> string).
Context (quote_plus : string -> string) (YANDEX_SEARCH_ID : string).

Definition warning_text : string :=
  "Поиск по справочнику и категориям не дал результатов, и мы переключились на поиск по всему сайту.".

(** [search(request)], from [request.POST.get('text')]. *)
Definition search (POST_text : option string) : Response * list Effect :=
  let '(search_term, results) := search_models (default "" POST_text) in
  if negb (truthy search_term) then (Redirect (reverse "index"), [])
  else
    match results with
    | [] =>
        (Redirect (reverse "search_site" +:+ "?searchid=" +:+ YANDEX_SEARCH_ID
                   +:+ "&text=" +:+ quote_plus search_term),
         [ReferenceMissing_add search_term; message_warning warning_text])
    | [result] => (Redirect (get_absolute_url result), [])
    | _ :: _ :: _ =>
        (Render "static/search.html" search_term results (length results), [])
    end.
End Search.

End Views.

(** ** A scenario for the views *)

Module ViewsScenario.
Import Views.

Definition realm_of (shown : bool) (actual : list nat) (title : string)
  : Realm :=
  {| show_on_main := shown; get_actual := actual; has_categories := true;
     get_objects_in_category := λ _, actual;
     get_verbose_name_plural := title; get_names := (title, title) |}.

Definition articles : Realm := realm_of true [1; 2; 3; 4; 5; 6; 7]%nat "Articles".
Definition videos : Realm := realm_of false [8; 9]%nat "Videos".
Definition events : Realm := realm_of true [] "Events".

Definition realms_registry : dict Realm :=
  [("article", articles); ("video", videos); ("event", events)].

Definition external (name : string) (pk : nat) : ExternalResource :=
  {| realm_name := name; external_pk := pk |}.

(** The rows as a database may return them: the two of "article" apart. *)
Definition rows : list ExternalResource :=
  [external "article" 1; external "event" 2; external "article" 3].

(** A PEP as the pair of its status and its type. *)
Definition pep_field (attr : string) (pep : Z * Z) : Z :=
  if decide (attr = "status") then pep.1 else pep.2.

Definition peps : list (Z * Z) := [(1, 1); (2, 1); (2, 2)]%Z.

(** [str.isdigit] and [int] on ASCII text. *)
Definition digit_of (a : Ascii.ascii) : option Z :=
  let n := (Z.of_nat (Ascii.nat_of_ascii a) - 48)%Z in
  if ((0 <=? n) && (n <=? 9))%Z then Some n else None.

Fixpoint all_digits (s : string) : bool :=
  match s with
  | EmptyString => true
  | String a s' => bool_decide (is_Some (digit_of a)) && all_digits s'
  end.

Definition ascii_isdigit (s : string) : bool := truthy s && all_digits s.

Fixpoint decimal (s : string) (acc : Z) : result Z :=
  match s with
  | EmptyString => Ok acc
  | String a s' =>
      match digit_of a with
      | Some d => decimal s' (10 * acc + d)%Z
      | None => Raise ValueError
      end
  end.

Definition ascii_int (s : string) : result Z :=
  if truthy s then decimal s 0%Z else Raise ValueError.

(** Requests for [?status=2] and for [?status=draft]. *)
Definition request_status (val : string) : Request :=
  {| GET := λ attr, if decide (attr = "status") then Some val else None;
     disable_paginator := false |}.

(** The two elements of [realms_data] for the realms and rows above. *)
Definition articles_entry : RealmData :=
  {| data_cls := articles; data_main := Some 1%nat;
     data_additional :=
       [OwnObject 2; OwnObject 3; OwnObject 4; OwnObject 5;
        External (external "article" 3)] |}.

Definition events_entry : RealmData :=
  {| data_cls := events; data_main := None; data_additional := [] |}.

Definition pep_attrs : list (string * list Z) :=
  [("status", [1; 2; 3]%Z); ("type", [1; 2]%Z)].
End ViewsScenario.

(** * Properties *)

(** ** Truth values and dictionaries *)

Lemma truthy_nonempty (s : string) : truthy s = true ↔ s ≠ "".
Proof. destruct s; simpl; split; congruence. Qed.

Section DictFacts.
Context {V : Type}.
Implicit Types (d : dict V) (k : string) (v : V).

Lemma dict_get_setitem_eq d k v : dict_get (dict_setitem d k v) k = Some v.
Proof.
  induction d as [|[k' v'] d IH]; simpl.
  - by rewrite decide_True.
  - destruct (decide (k' = k)) as [->|Hne]; simpl.
    + by rewrite decide_True.
    + by rewrite decide_False.
Qed.

Lemma dict_get_setitem_ne d k k' v :
  k ≠ k' -> dict_get (dict_setitem d k v) k' = dict_get d k'.
Proof.
  intros Hne. induction d as [|[k0 v0] d IH]; simpl.
  - by rewrite decide_False.
  - destruct (decide (k0 = k)) as [->|Hk0]; simpl.
    + by rewrite !decide_False.
    + by rewrite IH.
Qed.

Lemma dict_get_None d k : dict_get d k = None ↔ k ∉ dict_keys d.
Proof.
  unfold dict_keys. induction d as [|[k' v'] d IH]; simpl.
  - split; [intros _; apply not_elem_of_nil | done].
  - rewrite not_elem_of_cons. destruct (decide (k' = k)) as [->|Hne].
    + split; [done | by intros [? _]].
    + rewrite IH. intuition congruence.
Qed.

Lemma dict_get_Some_elem d k v : dict_get d k = Some v -> (k, v) ∈ d.
Proof.
  induction d as [|[k' v'] d IH]; simpl; [done|].
  destruct (decide (k' = k)) as [->|Hne].
  - intros Hv. injection Hv as ->. apply list_elem_of_here.
  - intros H. apply list_elem_of_further. by apply IH.
Qed.

Lemma dict_elem_get d k v :
  NoDup (dict_keys d) -> (k, v) ∈ d -> dict_get d k = Some v.
Proof.
  unfold dict_keys. induction d as [|[k' v'] d IH]; simpl.
  - intros _ H. by apply elem_of_nil in H.
  - rewrite NoDup_cons. intros [Hk' Hnd] [Heq|Hin]%elem_of_cons.
    + injection Heq as -> ->. by rewrite decide_True.
    + destruct (decide (k' = k)) as [->|Hne]; [|by apply IH].
      exfalso. apply Hk'. change k with ((k, v).1).
      by apply list_elem_of_fmap_2.
Qed.

Lemma elem_of_dict_setitem d k v (kv : string * V) :
  NoDup (dict_keys d) ->
  kv ∈ dict_setitem d k v -> kv = (k, v) ∨ (kv ∈ d ∧ kv.1 ≠ k).
Proof.
  unfold dict_keys. induction d as [|[k' v'] d IH]; simpl.
  - intros _ ->%list_elem_of_singleton. by left.
  - rewrite NoDup_cons. intros [Hk' Hnd].
    destruct (decide (k' = k)) as [->|Hne].
    + intros [->|Hin]%elem_of_cons; [by left|].
      right. split; [by apply list_elem_of_further|].
      intros Heq. apply Hk'. rewrite <- Heq. by apply list_elem_of_fmap_2.
    + intros [->|Hin]%elem_of_cons.
      * right. split; [apply list_elem_of_here | done].
      * destruct (IH Hnd Hin) as [->|[Hin' Hk]]; [by left|].
        right. split; [by apply list_elem_of_further | done].
Qed.

Lemma dict_setitem_elem d k v : (k, v) ∈ dict_setitem d k v.
Proof. apply dict_get_Some_elem, dict_get_setitem_eq. Qed.

Lemma dict_keys_setitem d k v (k' : string) :
  k' ∈ dict_keys (dict_setitem d k v) ↔ k' = k ∨ k' ∈ dict_keys d.
Proof.
  unfold dict_keys. induction d as [|[k0 v0] d IH]; simpl.
  - rewrite list_elem_of_singleton, elem_of_nil. tauto.
  - destruct (decide (k0 = k)) as [->|Hne]; simpl.
    + rewrite !elem_of_cons. tauto.
    + rewrite !elem_of_cons, IH. tauto.
Qed.

Lemma dict_setitem_NoDup d k v :
  NoDup (dict_keys d) -> NoDup (dict_keys (dict_setitem d k v)).
Proof.
  induction d as [|[k0 v0] d IH]; simpl.
  - intros _. apply NoDup_singleton.
  - unfold dict_keys in *. simpl. rewrite NoDup_cons. intros [Hk0 Hnd].
    destruct (decide (k0 = k)) as [->|Hne]; simpl.
    + by apply NoDup_cons.
    + apply NoDup_cons. split; [|by apply IH].
      intros [->|Hin]%(dict_keys_setitem d k v k0); [done|].
      by apply Hk0.
Qed.

Lemma dict_count_absent d k : k ∉ dict_keys d -> dict_count d k = 0.
Proof.
  unfold dict_count, dict_keys. induction d as [|[k0 v0] d IH]; [done|].
  rewrite fmap_cons, not_elem_of_cons. intros [Hne Hk].
  rewrite filter_cons_False by (simpl; intros ?; by subst). by apply IH.
Qed.

Lemma dict_count_setitem d k v :
  NoDup (dict_keys d) -> dict_count (dict_setitem d k v) k = 1.
Proof.
  unfold dict_count, dict_keys. induction d as [|[k0 v0] d IH].
  - intros _. simpl dict_setitem. by rewrite filter_cons_True.
  - rewrite fmap_cons, NoDup_cons. intros [Hk0 Hnd]. simpl dict_setitem.
    destruct (decide (k0 = k)) as [->|Hne].
    + rewrite filter_cons_True by done. rewrite length_cons. f_equal.
      by apply dict_count_absent.
    + rewrite filter_cons_False by (simpl; intros ?; by subst). by apply IH.
Qed.
End DictFacts.

(** ** The registry as a defaultdict *)

Lemma registry_getitem_result key st :
  (registry_getitem key st).1 = Ok (bucket_of st key).
Proof.
  unfold registry_getitem, bucket_of. by destruct (registry st !! key).
Qed.

Lemma registry_getitem_classes key st :
  classes (registry_getitem key st).2 = classes st.
Proof. unfold registry_getitem. by destruct (registry st !! key). Qed.

(** Reading a realm may bind its key, and binds it to the empty dict. *)
Lemma registry_getitem_lookup key st r :
  registry (registry_getitem key st).2 !! r
  = if decide (r = key) then Some (bucket_of st key) else registry st !! r.
Proof.
  unfold registry_getitem, bucket_of.
  destruct (registry st !! key) as [d|] eqn:Hk; simpl.
  - case_decide; by simplify_eq.
  - case_decide; simplify_eq; [apply lookup_insert_eq | by apply lookup_insert_ne].
Qed.

Lemma registry_getitem_bucket key st r :
  bucket_of (registry_getitem key st).2 r = bucket_of st r.
Proof.
  unfold bucket_of at 1. rewrite registry_getitem_lookup.
  case_decide; by simplify_eq.
Qed.

Lemma get_sources_run cls st :
  get_sources cls st
  = (Ok (bucket_of st (cls_realm cls)), (get_sources cls st).2).
Proof.
  unfold get_sources.
  rewrite <- (registry_getitem_result (cls_realm cls) st).
  by destruct (registry_getitem (cls_realm cls) st).
Qed.

Lemma get_source_run cls alias st :
  get_source cls alias st
  = (Ok (dict_get (bucket_of st (cls_realm cls)) alias), (get_sources cls st).2).
Proof. unfold get_source, bind, ret. by rewrite get_sources_run. Qed.

Lemma get_sources_result cls st :
  (get_sources cls st).1 = Ok (bucket_of st (cls_realm cls)).
Proof. by rewrite get_sources_run. Qed.

Lemma get_source_result cls alias st :
  (get_source cls alias st).1
  = Ok (dict_get (bucket_of st (cls_realm cls)) alias).
Proof. by rewrite get_source_run. Qed.

Lemma class_stmt_run base body st :
  let cls := new_class st base body in
  class_stmt base body st
  = (Ok cls, {| classes := cls :: classes st; registry := registered cls st |}).
Proof.
  intros cls. unfold class_stmt, init_subclass, registered. fold cls.
  destruct (truthy (cls_alias cls)); [|done].
  unfold registry_setitem, bind, registry_getitem, bucket_of.
  destruct (registry st !! cls_realm cls) as [d|]; simpl; [done|].
  unfold add_class, set_registry; simpl. by rewrite insert_insert_eq.
Qed.

Lemma class_stmt_bucket base body st r :
  let cls := new_class st base body in
  bucket_of (class_stmt base body st).2 r
  = if truthy (cls_alias cls) && bool_decide (r = cls_realm cls)
    then dict_setitem (bucket_of st r) (cls_alias cls) cls
    else bucket_of st r.
Proof.
  intros cls. rewrite class_stmt_run. fold cls. unfold bucket_of, registered.
  simpl. destruct (truthy (cls_alias cls)); simpl; [|done].
  case_bool_decide as Hr.
  - subst r. by rewrite lookup_insert_eq.
  - by rewrite lookup_insert_ne.
Qed.

(** ** The invariant holds in every reachable state *)

Lemma entry_ok_mono st st' r kv :
  classes st ⊆ classes st' -> entry_ok st r kv -> entry_ok st' r kv.
Proof. intros Hsub (Hin & ?). split; [by apply Hsub | done]. Qed.

Lemma wf_init : wf init.
Proof. intros r d H. simpl in H. by rewrite lookup_empty in H. Qed.

Lemma wf_registry_getitem key st : wf st -> wf (registry_getitem key st).2.
Proof.
  intros Hwf r d. rewrite registry_getitem_lookup.
  assert (Hsub : classes st ⊆ classes (registry_getitem key st).2)
    by by rewrite registry_getitem_classes.
  case_decide as Hr.
  - subst r. unfold bucket_of. destruct (registry st !! key) as [d0|] eqn:Hk.
    + intros [= <-]. destruct (Hwf _ _ Hk) as [Hnd Hall].
      split; [done|]. eapply Forall_impl; [exact Hall|].
      intros kv. by apply entry_ok_mono.
    + intros [= <-]. split; [apply NoDup_nil_2 | apply Forall_nil_2].
  - intros Hd. destruct (Hwf _ _ Hd) as [Hnd Hall].
    split; [done|]. eapply Forall_impl; [exact Hall|].
    intros kv. by apply entry_ok_mono.
Qed.

Lemma wf_bucket_of st r :
  wf st ->
  NoDup (dict_keys (bucket_of st r)) ∧ Forall (entry_ok st r) (bucket_of st r).
Proof.
  intros Hwf. unfold bucket_of. destruct (registry st !! r) as [d|] eqn:Hr.
  - by apply Hwf.
  - split; [apply NoDup_nil_2 | apply Forall_nil_2].
Qed.

Lemma wf_class_stmt base body st : wf st -> wf (class_stmt base body st).2.
Proof.
  intros Hwf. rewrite class_stmt_run.
  set (cls := new_class st base body).
  set (st' := {| classes := cls :: classes st; registry := registered cls st |}).
  assert (Hsub : classes st ⊆ classes st') by (simpl; set_solver).
  intros r d Hd. simpl in Hd. unfold registered in Hd.
  destruct (truthy (cls_alias cls)) eqn:Halias.
  - destruct (decide (r = cls_realm cls)) as [->|Hr].
    + rewrite lookup_insert_eq in Hd. injection Hd as <-.
      destruct (wf_bucket_of st (cls_realm cls) Hwf) as [Hnd Hall].
      split; [by apply dict_setitem_NoDup|].
      apply Forall_forall. intros kv Hkv.
      apply elem_of_dict_setitem in Hkv; [|done].
      destruct Hkv as [->|[Hin _]].
      * repeat split; simpl; [set_solver | by apply truthy_nonempty].
      * eapply entry_ok_mono; [exact Hsub|].
        by eapply (proj1 (Forall_forall _ _) Hall).
    + rewrite lookup_insert_ne in Hd by done.
      destruct (Hwf _ _ Hd) as [Hnd Hall]. split; [done|].
      eapply Forall_impl; [exact Hall|]. intros kv. by apply entry_ok_mono.
  - destruct (Hwf _ _ Hd) as [Hnd Hall]. split; [done|].
    eapply Forall_impl; [exact Hall|]. intros kv. by apply entry_ok_mono.
Qed.

Lemma get_source_state cls alias st :
  (get_source cls alias st).2 = (get_sources cls st).2.
Proof. by rewrite get_source_run. Qed.

Lemma get_enum_state cls st : (get_enum cls st).2 = (get_sources cls st).2.
Proof. unfold get_enum. by destruct (get_sources cls st) as [[d|e] st']. Qed.

Lemma reachable_wf st : reachable st -> wf st.
Proof.
  induction 1 as [|st base body _ IH _|st cls _ IH _
                  |st cls alias _ IH _|st cls _ IH _].
  - apply wf_init.
  - by apply wf_class_stmt.
  - by apply wf_registry_getitem.
  - rewrite get_source_state. by apply wf_registry_getitem.
  - rewrite get_enum_state. by apply wf_registry_getitem.
Qed.

(** ** Enumerations built from a dict with distinct keys *)

Lemma find_value_None (ms : list Member) (v : string) :
  v ∉ member_value <$> ms ->
  List.find (λ m, bool_decide (member_value m = v)) ms = None.
Proof.
  induction ms as [|m ms IH]; simpl; [done|].
  rewrite not_elem_of_cons. intros [Hne Hin].
  rewrite bool_decide_eq_false_2 by congruence. by apply IH.
Qed.

Lemma enum_fill_distinct (items : list Item) ms als :
  NoDup ((member_value <$> ms) ++ ((λ it : Item, it.2.1) <$> items)) ->
  enum_fill items ms als = (ms ++ (to_member <$> items), als).
Proof.
  revert ms. induction items as [|[name [value label]] items IH]; intros ms Hnd.
  - simpl. by rewrite app_nil_r.
  - simpl in *. apply NoDup_app in Hnd as (Hms & Hdisj & Hits).
    apply NoDup_cons in Hits as [Hvalue Hits].
    rewrite find_value_None.
    + rewrite IH; [by rewrite <- app_assoc|].
      rewrite fmap_app, <- app_assoc. simpl.
      apply NoDup_app. repeat split; [done| |by apply NoDup_cons].
      intros x Hx. apply Hdisj in Hx. set_solver.
    + intros Hin. apply Hdisj in Hin. set_solver.
Qed.

Lemma classdict_fill_members cls_name (items : list Item) acc :
  Forall (λ name, name_kind cls_name name = MemberName) items.*1 ->
  NoDup items.*1 ->
  (∀ name, name ∈ items.*1 -> name ∉ acc) ->
  classdict_fill cls_name items acc = Some (Ok tt).
Proof.
  revert acc. induction items as [|[name v] items IH]; intros acc; [done|].
  rewrite fmap_cons, Forall_cons, NoDup_cons. simpl.
  intros [Hkind Hall] [Hname Hnd] Hacc. rewrite Hkind.
  rewrite bool_decide_eq_false_2 by (apply Hacc; left).
  apply IH; [done|done|].
  intros n Hn [->|Hin]%elem_of_cons; [done|].
  by apply (Hacc n); [right|].
Qed.

Lemma classdict_fill_Ok cls_name (items : list Item) acc u :
  classdict_fill cls_name items acc = Some (Ok u) ->
  Forall (λ name, name_kind cls_name name = MemberName) items.*1.
Proof.
  revert acc. induction items as [|[name v] items IH]; intros acc; simpl.
  - intros _. apply Forall_nil_2.
  - destruct (name_kind cls_name name) eqn:Hkind; [|done|done].
    case_bool_decide; [done|]. intros Hfill.
    apply Forall_cons. split; [done|]. by eapply IH.
Qed.

Lemma classdict_fill_Raise cls_name (items : list Item) acc err :
  classdict_fill cls_name items acc = Some (Raise err) ->
  NoDup items.*1 ->
  (∀ name, name ∈ items.*1 -> name ∉ acc) ->
  err = ValueError
  ∧ ∃ name, name ∈ items.*1 ∧ name_kind cls_name name = ReservedName.
Proof.
  revert acc. induction items as [|[name v] items IH]; intros acc; [done|].
  rewrite fmap_cons, NoDup_cons. simpl.
  destruct (name_kind cls_name name) eqn:Hkind; [| |done].
  - intros Hfill [Hname Hnd] Hacc.
    rewrite bool_decide_eq_false_2 in Hfill by (apply Hacc; left).
    destruct (IH _ Hfill Hnd) as (Herr & n & Hn & Hk).
    + intros n Hn [->|Hin]%elem_of_cons; [done|].
      by apply (Hacc n); [right|].
    + split; [done|]. exists n. split; [by right|done].
  - intros Hfill _ _. injection Hfill as <-.
    split; [done|]. exists name. split; [left|done].
Qed.

Lemma existsb_invalid (names : list string) :
  existsb (λ name, bool_decide (name ∈ invalid_names)) names = true
  ↔ ∃ name, name ∈ names ∧ name ∈ invalid_names.
Proof.
  rewrite existsb_exists. split.
  - intros (n & Hn%list_elem_of_In & Hb%bool_decide_eq_true). by exists n.
  - intros (n & Hn & Hinv). exists n.
    split; [by apply list_elem_of_In | by apply bool_decide_eq_true].
Qed.

Lemma member_alias_kind alias :
  member_alias alias = true
  ↔ name_kind "Source" alias = MemberName ∧ alias ∉ invalid_names.
Proof.
  unfold member_alias. destruct (name_kind "Source" alias).
  - rewrite negb_true_iff, bool_decide_eq_false. tauto.
  - split; [done | by intros [? _]].
  - split; [done | by intros [? _]].
Qed.

(** The enumeration made of items with distinct names that are their own
    values: all the items become members, when they become anything. *)
Lemma enum_create_Ok cls_name (items : list Item) e :
  names_are_values items -> NoDup items.*1 ->
  enum_create cls_name items = Some (Ok e) ->
  e = {| enum_name := cls_name; enum_members := to_member <$> items;
         enum_aliases := [] |}.
Proof.
  intros Hval Hnd. unfold enum_create.
  destruct (classdict_fill cls_name items []) as [[u|err]|]; [|done|done].
  destruct (existsb _ _); [done|].
  rewrite enum_fill_distinct by (simpl; by rewrite <- Hval).
  by intros [= <-].
Qed.

Lemma enum_create_members (items : list Item) :
  names_are_values items -> NoDup items.*1 ->
  Forall (λ name, member_alias name = true) items.*1 ->
  enum_create "Source" items
  = Some (Ok {| enum_name := "Source"; enum_members := to_member <$> items;
                enum_aliases := [] |}).
Proof.
  intros Hval Hnd Hall. unfold enum_create.
  rewrite classdict_fill_members; [|
    eapply Forall_impl; [exact Hall|];
    intros n Hn; by apply member_alias_kind in Hn as [? _]
  |done|intros n _; apply not_elem_of_nil].
  destruct (existsb _ _) eqn:Hinv.
  - apply existsb_invalid in Hinv as (n & Hn & Hbad).
    apply (proj1 (Forall_forall _ _) Hall), member_alias_kind in Hn.
    by destruct Hn.
  - by rewrite enum_fill_distinct by (simpl; by rewrite <- Hval).
Qed.

Lemma enum_create_Raise (items : list Item) err :
  NoDup items.*1 ->
  enum_create "Source" items = Some (Raise err) ->
  err = ValueError
  ∧ ∃ name, name ∈ items.*1 ∧ reserved_alias name = true.
Proof.
  intros Hnd. unfold enum_create.
  destruct (classdict_fill "Source" items []) as [[u|e]|] eqn:Hfill; [| |done].
  - destruct (existsb _ _) eqn:Hinv.
    + intros [= <-]. split; [done|].
      apply existsb_invalid in Hinv as (n & Hn & Hbad). exists n.
      split; [done|]. unfold reserved_alias.
      apply classdict_fill_Ok in Hfill.
      rewrite (proj1 (Forall_forall _ _) Hfill n Hn).
      by apply bool_decide_eq_true.
    + by destruct (enum_fill items [] []).
  - intros [= <-].
    destruct (classdict_fill_Raise _ _ _ _ Hfill Hnd) as (-> & n & Hn & Hk).
    { intros n _. apply not_elem_of_nil. }
    split; [done|]. exists n. split; [done|].
    unfold reserved_alias. by rewrite Hk.
Qed.

(** On such items neither check of [unique] changes the answer. *)
Lemma enum_answer_create (items : list Item) :
  names_are_values items -> NoDup items.*1 ->
  enum_answer items = enum_create "Source" items.
Proof.
  intros Hval Hnd. unfold enum_answer, TextChoices.
  destruct (enum_create "Source" items) as [[e|err]|] eqn:Hcreate; [|done|done].
  by rewrite (enum_create_Ok _ _ _ Hval Hnd Hcreate).
Qed.

Lemma item_of_names_are_values (d : dict Class) :
  names_are_values (item_of <$> d).
Proof.
  unfold names_are_values. rewrite <- !list_fmap_compose.
  by apply list_fmap_ext.
Qed.

Lemma item_of_names (d : dict Class) : (item_of <$> d).*1 = dict_keys d.
Proof. unfold dict_keys. by rewrite <- list_fmap_compose. Qed.

Lemma get_enum_answer cls st :
  (get_enum cls st).1
  = enum_answer (item_of <$> bucket_of st (cls_realm cls)).
Proof.
  unfold get_enum. rewrite get_sources_run. simpl.
  assert (Hmap : map (λ '(alias, source_cls),
                        (alias, (alias, cls_title source_cls)))
                   (dict_items (bucket_of st (cls_realm cls)))
                 = item_of <$> bucket_of st (cls_realm cls)).
  { unfold dict_items. apply map_ext. by intros [a c]. }
  by rewrite Hmap.
Qed.

Lemma get_enum_create cls st :
  wf st ->
  (get_enum cls st).1
  = enum_create "Source" (item_of <$> bucket_of st (cls_realm cls)).
Proof.
  intros Hwf. destruct (wf_bucket_of st (cls_realm cls) Hwf) as [Hnd _].
  rewrite get_enum_answer.
  apply enum_answer_create; [apply item_of_names_are_values|].
  by rewrite item_of_names.
Qed.

Lemma get_enum_result cls st :
  wf st ->
  Forall (λ alias, member_alias alias = true)
    (dict_keys (bucket_of st (cls_realm cls))) ->
  (get_enum cls st).1 = Some (Ok (enum_of (bucket_of st (cls_realm cls)))).
Proof.
  intros Hwf Hall. destruct (wf_bucket_of st (cls_realm cls) Hwf) as [Hnd _].
  rewrite get_enum_create by done.
  rewrite enum_create_members.
  - unfold enum_of. by rewrite list_fmap_compose.
  - apply item_of_names_are_values.
  - by rewrite item_of_names.
  - by rewrite item_of_names.
Qed.

Lemma get_enum_Ok cls st e :
  wf st -> (get_enum cls st).1 = Some (Ok e) ->
  e = enum_of (bucket_of st (cls_realm cls)).
Proof.
  intros Hwf. destruct (wf_bucket_of st (cls_realm cls) Hwf) as [Hnd _].
  rewrite get_enum_create by done. intros Hcreate.
  apply enum_create_Ok in Hcreate.
  - subst e. unfold enum_of. by rewrite list_fmap_compose.
  - apply item_of_names_are_values.
  - by rewrite item_of_names.
Qed.

(** The checks are real ones: two names with one value are refused by
    [unique], a name bound twice, a [_sunder_] name and the name "mro" by
    the functional API; about a [__dunder__] name the model is silent. *)
Example unique_refuses_shared_value :
  TextChoices "Source" [("a", ("x", "A")); ("b", ("x", "B"))]
  = Some (Raise ValueError).
Proof. reflexivity. Qed.

Example TextChoices_refuses_reused_name :
  TextChoices "Source" [("a", ("x", "A")); ("a", ("y", "B"))]
  = Some (Raise TypeError).
Proof. reflexivity. Qed.

Example TextChoices_refuses_reserved_names :
  TextChoices "Source" [("hh", ("hh", "A")); ("_hh_", ("_hh_", "B"))]
  = Some (Raise ValueError) ∧
  TextChoices "Source" [("hh", ("hh", "A")); ("mro", ("mro", "B"))]
  = Some (Raise ValueError) ∧
  TextChoices "Source" [("hh", ("hh", "A")); ("__lnk__", ("__lnk__", "B"))]
  = None ∧
  TextChoices "Source" [("hh", ("hh", "A")); ("_lnk", ("_lnk", "B"))]
  = Some (Ok {| enum_name := "Source";
                enum_members :=
                  [{| member_name := "hh"; member_value := "hh";
                      member_label := "A" |};
                   {| member_name := "_lnk"; member_value := "_lnk";
                      member_label := "B" |}];
                enum_aliases := [] |}).
Proof. repeat split. Qed.

(** A class is never its own base. *)
Lemma Subclass_neq_base cls n body : Subclass n cls body ≠ cls.
Proof.
  revert n body. induction cls as [|m base IH b]; intros n body; [done|].
  intros Heq. injection Heq as _ Hbase _. by eapply IH.
Qed.

(** ** Registration and lookup *)

(** In a reachable state a class found in the registry is a declared class
    with a non-empty alias, stored under its own realm and alias. *)
Lemma reachable_entry st r a cls :
  reachable st -> (a, cls) ∈ bucket_of st r ->
  cls ∈ classes st ∧ cls_realm cls = r ∧ cls_alias cls = a ∧ a ≠ "".
Proof.
  intros Hre Hin. destruct (wf_bucket_of st r (reachable_wf st Hre)) as [_ Hall].
  exact (proj1 (Forall_forall _ _) Hall _ Hin).
Qed.

(** C1: for every class declared with a non-empty alias for realm R, right
    after the class statement [get_sources] called for realm R holds an entry
    from that alias to the class object, and [get_source] for R and the
    alias returns that very class object. *)
Theorem declared_source_is_found st base body cls q :
  cls = new_class st base body ->
  cls_alias cls ≠ "" ->
  cls_realm q = cls_realm cls ->
  ∃ st1 d,
    class_stmt base body st = (Ok cls, st1) ∧
    (get_sources q st1).1 = Ok d ∧
    (cls_alias cls, cls) ∈ dict_items d ∧
    dict_get d (cls_alias cls) = Some cls ∧
    (get_source q (cls_alias cls) st1).1 = Ok (Some cls).
Proof.
  intros -> Halias Hq.
  set (cls := new_class st base body) in *.
  pose proof (class_stmt_bucket base body st (cls_realm q)) as Hb.
  simpl in Hb. fold cls in Hb.
  rewrite (proj2 (truthy_nonempty _) Halias), Hq, bool_decide_eq_true_2 in Hb
    by done.
  simpl in Hb.
  exists (class_stmt base body st).2, (bucket_of (class_stmt base body st).2 (cls_realm q)).
  rewrite Hq, Hb. repeat split.
  - by rewrite class_stmt_run.
  - by rewrite get_sources_run, Hq, Hb.
  - apply dict_setitem_elem.
  - apply dict_get_setitem_eq.
  - by rewrite get_source_run, Hq, Hb, dict_get_setitem_eq.
Qed.

(** C2: when two classes are declared one after the other with the same
    realm and the same non-empty alias, neither class statement raises,
    [get_source] returns the second class, and the dict of the realm holds
    exactly one entry under the alias; its keys are pairwise distinct. *)
Theorem last_registration_wins st base1 body1 base2 body2 c1 c2 st1 q :
  reachable st ->
  c1 = new_class st base1 body1 ->
  st1 = (class_stmt base1 body1 st).2 ->
  c2 = new_class st1 base2 body2 ->
  cls_alias c1 ≠ "" ->
  cls_alias c2 = cls_alias c1 ->
  cls_realm c2 = cls_realm c1 ->
  cls_realm q = cls_realm c1 ->
  ∃ st2 d,
    class_stmt base1 body1 st = (Ok c1, st1) ∧
    class_stmt base2 body2 st1 = (Ok c2, st2) ∧
    c1 ≠ c2 ∧
    (get_source q (cls_alias c1) st2).1 = Ok (Some c2) ∧
    (get_sources q st2).1 = Ok d ∧
    dict_count d (cls_alias c1) = 1 ∧
    NoDup (dict_keys d).
Proof.
  intros Hre -> -> -> Ha1 Ha2 Hr2 Hq.
  set (c1 := new_class st base1 body1) in *.
  set (st1 := (class_stmt base1 body1 st).2) in *.
  set (c2 := new_class st1 base2 body2) in *.
  assert (Hwf1 : wf st1) by by apply wf_class_stmt, reachable_wf.
  destruct (wf_bucket_of st1 (cls_realm c1) Hwf1) as [Hnd1 _].
  pose proof (class_stmt_bucket base2 body2 st1 (cls_realm q)) as Hb.
  simpl in Hb. fold c2 in Hb.
  rewrite Ha2, (proj2 (truthy_nonempty _) Ha1), Hq, Hr2, bool_decide_eq_true_2
    in Hb by done.
  simpl in Hb.
  exists (class_stmt base2 body2 st1).2,
         (bucket_of (class_stmt base2 body2 st1).2 (cls_realm q)).
  repeat split.
  - unfold st1. by rewrite class_stmt_run.
  - by rewrite class_stmt_run.
  - unfold c1, c2, st1, new_class. rewrite class_stmt_run. simpl.
    intros Heq. injection Heq as Hlen _ _. lia.
  - by rewrite get_source_run, Hq, Hb, dict_get_setitem_eq.
  - by rewrite get_sources_run.
  - rewrite Hq, Hb. by apply dict_count_setitem.
  - rewrite Hq, Hb. by apply dict_setitem_NoDup.
Qed.

(** C3, as the code has it: a class is registered at declaration time
    exactly when its alias is non-empty, whatever its realm.  With a non-empty
    alias it is stored under its realm, the empty string included; with an
    empty alias the registry stays as it was. *)
Theorem registration_depends_on_alias_only st base body cls :
  cls = new_class st base body ->
  ∃ st1,
    class_stmt base body st = (Ok cls, st1) ∧
    (cls_alias cls ≠ "" ->
       dict_get (bucket_of st1 (cls_realm cls)) (cls_alias cls) = Some cls) ∧
    (cls_alias cls = "" -> registry st1 = registry st).
Proof.
  intros ->. set (cls := new_class st base body).
  exists (class_stmt base body st).2. repeat split.
  - by rewrite class_stmt_run.
  - intros Halias. rewrite class_stmt_bucket. fold cls.
    rewrite (proj2 (truthy_nonempty _) Halias), bool_decide_eq_true_2 by done.
    simpl. apply dict_get_setitem_eq.
  - intros Halias. rewrite class_stmt_run. fold cls. simpl.
    unfold registered. by rewrite Halias.
Qed.

(** C4: a class declared with an empty alias is not registered and its class
    statement does not raise; in no reachable state does it occur in the dict
    that [get_sources] returns, or as the result of [get_source], for any
    realm, and every member of an enumeration that [get_enum] returns stems
    from another class and has a value different from its alias. *)
Theorem empty_alias_never_registered st base body cls :
  cls = new_class st base body ->
  cls_alias cls = "" ->
  (∃ st1, class_stmt base body st = (Ok cls, st1) ∧ registry st1 = registry st) ∧
  ∀ st' q, reachable st' ->
    (∃ d, (get_sources q st').1 = Ok d ∧ ∀ a, (a, cls) ∉ dict_items d) ∧
    (∀ a, ∃ found, (get_source q a st').1 = Ok found ∧ found ≠ Some cls) ∧
    (∀ e, (get_enum q st').1 = Some (Ok e) ->
       ∀ m, m ∈ enum_members e ->
         member_value m ≠ cls_alias cls ∧
         ∃ c, c ≠ cls ∧ (member_name m, c) ∈ bucket_of st' (cls_realm q)).
Proof.
  intros Hcls Halias. split.
  - exists (class_stmt base body st).2. subst cls.
    rewrite class_stmt_run. split; [done|]. simpl. unfold registered.
    by rewrite Halias.
  - intros st' q Hre.
    assert (Hout : ∀ a, (a, cls) ∉ bucket_of st' (cls_realm q)).
    { intros a Hin. apply (reachable_entry _ _ _ _ Hre) in Hin.
      destruct Hin as (_ & _ & Ha & Hne). congruence. }
    split; [|split].
    + exists (bucket_of st' (cls_realm q)). by rewrite get_sources_run.
    + intros a. exists (dict_get (bucket_of st' (cls_realm q)) a).
      rewrite get_source_run. split; [done|].
      intros Hget. by apply dict_get_Some_elem, Hout in Hget.
    + intros e He m Hm.
      apply get_enum_Ok in He; [|by apply reachable_wf]. subst e.
      simpl in Hm. apply list_elem_of_fmap in Hm as ([a c] & -> & Hin). simpl.
      pose proof (reachable_entry _ _ _ _ Hre Hin) as (_ & _ & _ & Hne).
      split; [congruence|]. exists c. split; [|done].
      intros ->. by apply (Hout a).
Qed.

(** C5, as the code has it: in every reachable state in which the aliases
    registered for a realm are names that the enumeration machinery takes as
    names of members, [get_enum] for the realm returns an enumeration whose
    members are, in order, one per entry of the realm's dict: the name and
    the value are the alias, the label is the title of the registered class.
    The values are pairwise distinct and are exactly the registered aliases;
    a realm for which no class with an alias was declared gets an
    enumeration without members. *)
Theorem get_enum_members st q :
  reachable st ->
  Forall (λ alias, member_alias alias = true)
    (dict_keys (bucket_of st (cls_realm q))) ->
  ∃ e,
    (get_enum q st).1 = Some (Ok e) ∧
    enum_members e
    = (λ kv, {| member_name := kv.1; member_value := kv.1;
                member_label := cls_title kv.2 |})
      <$> bucket_of st (cls_realm q) ∧
    member_value <$> enum_members e = dict_keys (bucket_of st (cls_realm q)) ∧
    NoDup (member_value <$> enum_members e) ∧
    ((∀ c, c ∈ classes st -> cls_alias c ≠ "" -> cls_realm c ≠ cls_realm q) ->
     enum_members e = []).
Proof.
  intros Hre Hnames. pose proof (reachable_wf st Hre) as Hwf.
  destruct (wf_bucket_of st (cls_realm q) Hwf) as [Hnd _].
  exists (enum_of (bucket_of st (cls_realm q))).
  assert (Hvals : member_value <$> enum_members (enum_of (bucket_of st (cls_realm q)))
                  = dict_keys (bucket_of st (cls_realm q))).
  { simpl. rewrite <- list_fmap_compose. by apply list_fmap_ext. }
  split; [by apply get_enum_result|]. split; [reflexivity|].
  split; [exact Hvals|]. split; [by rewrite Hvals|].
  intros Hnone. simpl.
  destruct (bucket_of st (cls_realm q)) as [|[a c] d] eqn:Hb; [done|].
  exfalso.
  assert (Hin : (a, c) ∈ bucket_of st (cls_realm q))
    by (rewrite Hb; apply list_elem_of_here).
  pose proof (reachable_entry _ _ _ _ Hre Hin) as (Hc & Hr & Ha & Hne).
  apply (Hnone c Hc); [congruence | done].
Qed.


(** C7: in every reachable state [get_source] returns a result and never
    raises; the result is [None] for a realm and alias under which no class
    was ever declared, and so for every alias of a realm without
    registrations, where [get_sources] returns the empty dict. *)
Theorem lookup_miss_is_absent st q :
  reachable st ->
  (∀ a, ∃ found, (get_source q a st).1 = Ok found) ∧
  (∀ a,
     (∀ c, c ∈ classes st -> cls_alias c ≠ "" ->
           ¬ (cls_realm c = cls_realm q ∧ cls_alias c = a)) ->
     (get_source q a st).1 = Ok None) ∧
  ((∀ c, c ∈ classes st -> cls_alias c ≠ "" -> cls_realm c ≠ cls_realm q) ->
   (get_sources q st).1 = Ok [] ∧ ∀ a, (get_source q a st).1 = Ok None).
Proof.
  intros Hre.
  assert (Hmiss : ∀ a,
    (∀ c, c ∈ classes st -> cls_alias c ≠ "" ->
          ¬ (cls_realm c = cls_realm q ∧ cls_alias c = a)) ->
    dict_get (bucket_of st (cls_realm q)) a = None).
  { intros a Hnever.
    destruct (dict_get (bucket_of st (cls_realm q)) a) as [c|] eqn:Hget; [|done].
    apply dict_get_Some_elem in Hget.
    pose proof (reachable_entry _ _ _ _ Hre Hget) as (Hc & Hr & Ha & Hne).
    exfalso. apply (Hnever c Hc); [congruence | done]. }
  split; [|split].
  - intros a. eexists. by rewrite get_source_run.
  - intros a Hnever. by rewrite get_source_run, Hmiss.
  - intros Hnone. split.
    + rewrite get_sources_run. simpl. f_equal.
      destruct (bucket_of st (cls_realm q)) as [|[a c] d] eqn:Hb; [done|].
      exfalso.
      assert (Hin : (a, c) ∈ bucket_of st (cls_realm q))
        by (rewrite Hb; apply list_elem_of_here).
      pose proof (reachable_entry _ _ _ _ Hre Hin) as (Hc & Hr & Ha & Hne).
      apply (Hnone c Hc); [congruence | done].
    + intros a. rewrite get_source_run, Hmiss; [done|].
      intros c Hc Hne [Hr _]. by apply (Hnone c Hc).
Qed.

(** C8: in every reachable state the aliases in the dict of a realm are
    pairwise distinct, so the items that [get_enum] hands to [TextChoices]
    have distinct names and distinct values.  The checks for uniqueness
    therefore never fail: what [get_enum] answers is what the construction of
    the enumeration answers, an enumeration that it returns passes [unique],
    and when [get_enum] raises, it is the [ValueError] for an alias that the
    machinery refuses as a name, not one for a duplicate. *)
Theorem get_enum_uniqueness_check_passes st q :
  reachable st ->
  NoDup (dict_keys (bucket_of st (cls_realm q))) ∧
  NoDup (item_of <$> bucket_of st (cls_realm q)).*1 ∧
  NoDup ((λ it : Item, it.2.1) <$> (item_of <$> bucket_of st (cls_realm q))) ∧
  (get_enum q st).1
  = enum_create "Source" (item_of <$> bucket_of st (cls_realm q)) ∧
  (∀ e, enum_create "Source" (item_of <$> bucket_of st (cls_realm q))
        = Some (Ok e) ->
        enum_aliases e = [] ∧ unique e = Ok e) ∧
  (∀ err, (get_enum q st).1 = Some (Raise err) ->
     err = ValueError
     ∧ ∃ alias, alias ∈ dict_keys (bucket_of st (cls_realm q))
                ∧ reserved_alias alias = true).
Proof.
  intros Hre. pose proof (reachable_wf st Hre) as Hwf.
  destruct (wf_bucket_of st (cls_realm q) Hwf) as [Hnd _].
  pose proof (item_of_names (bucket_of st (cls_realm q))) as Hnames.
  pose proof (item_of_names_are_values (bucket_of st (cls_realm q))) as Hval.
  split; [done|]. split; [by rewrite Hnames|].
  split; [by rewrite <- Hval, Hnames|].
  split; [by apply get_enum_create|]. split.
  - intros e He. apply enum_create_Ok in He; [|done|by rewrite Hnames].
    by subst e.
  - intros err Herr. rewrite get_enum_create in Herr by done.
    apply enum_create_Raise in Herr; [|by rewrite Hnames].
    by rewrite Hnames in Herr.
Qed.

(** C9: a class statement for realm R and alias A leaves every other key
    alone: [get_source] for a realm and alias other than (R, A) returns what
    it returned before, and so does [get_sources] for a realm other than R. *)
Theorem registration_frame st base body cls q a :
  cls = new_class st base body ->
  (cls_realm q ≠ cls_realm cls ->
     (get_sources q (class_stmt base body st).2).1 = (get_sources q st).1) ∧
  ((cls_realm q, a) ≠ (cls_realm cls, cls_alias cls) ->
     (get_source q a (class_stmt base body st).2).1 = (get_source q a st).1).
Proof.
  intros ->. set (cls := new_class st base body).
  pose proof (class_stmt_bucket base body st (cls_realm q)) as Hb.
  simpl in Hb. fold cls in Hb. split.
  - intros Hr. rewrite !get_sources_result, Hb. simpl.
    by rewrite bool_decide_eq_false_2, andb_false_r.
  - intros Hkey. rewrite !get_source_result, Hb. simpl. f_equal.
    destruct (truthy (cls_alias cls)); [|done]. simpl.
    case_bool_decide as Hr; [|done].
    apply dict_get_setitem_ne. intros Ha. apply Hkey. by rewrite Hr, Ha.
Qed.

(** C10: a subclass of a class with a non-empty alias whose body assigns
    neither [alias] nor [realm] inherits both, and its class statement stores
    it under the same realm and alias: afterwards [get_source] returns the
    subclass, which is a class object other than its base. *)
Theorem subclass_takes_over_alias st parent body child q :
  child = new_class st parent body ->
  cls_alias parent ≠ "" ->
  body_alias body = None ->
  body_realm body = None ->
  cls_realm q = cls_realm parent ->
  cls_alias child = cls_alias parent ∧
  cls_realm child = cls_realm parent ∧
  child ≠ parent ∧
  ∃ st1,
    class_stmt parent body st = (Ok child, st1) ∧
    (get_source q (cls_alias parent) st1).1 = Ok (Some child) ∧
    (get_source q (cls_alias parent) st1).1 ≠ Ok (Some parent).
Proof.
  intros -> Halias Hba Hbr Hq.
  set (child := new_class st parent body).
  assert (Ha : cls_alias child = cls_alias parent).
  { unfold child, new_class, cls_alias, getattr. simpl. by rewrite Hba. }
  assert (Hr : cls_realm child = cls_realm parent).
  { unfold child, new_class, cls_realm, getattr. simpl. by rewrite Hbr. }
  assert (Hne : child ≠ parent) by apply Subclass_neq_base.
  split; [done|]. split; [done|]. split; [done|].
  exists (class_stmt parent body st).2.
  assert (Hget : (get_source q (cls_alias parent) (class_stmt parent body st).2).1
                 = Ok (Some child)).
  { rewrite get_source_run, class_stmt_bucket. fold child. simpl.
    rewrite Ha, Hr, Hq, (proj2 (truthy_nonempty _) Halias),
      bool_decide_eq_true_2 by done.
    simpl. by rewrite dict_get_setitem_eq. }
  split; [by rewrite class_stmt_run|]. split; [done|].
  rewrite Hget. intros Heq. injection Heq as Heq. done.
Qed.

(** ** The scenario, checked against the theorems *)

Lemma reachable_after_SourceA : reachable after_SourceA.
Proof. apply reach_class; [apply reach_init | by left]. Qed.

Lemma classes_after_SourceA c : c ∈ classes after_SourceA -> c = SourceA.
Proof. intros Hc. by apply list_elem_of_singleton in Hc. Qed.

Lemma reachable_after_SourceB : reachable after_SourceB.
Proof. apply reach_class; [apply reachable_after_SourceA | by left]. Qed.

Lemma reachable_after_VacancySource : reachable after_VacancySource.
Proof.
  apply reach_class; [apply reach_class; [apply reach_init | by left]|].
  right. apply list_elem_of_here.
Qed.

(** C1 on [class SourceA(RemoteSource)] declared right after import. *)
Lemma declared_source_is_found_witness :
  SourceA = new_class init RemoteSource hh_body ∧
  cls_alias SourceA ≠ "" ∧
  cls_realm Vacancy = cls_realm SourceA ∧
  ∃ st1 d,
    class_stmt RemoteSource hh_body init = (Ok SourceA, st1) ∧
    (get_sources Vacancy st1).1 = Ok d ∧
    (cls_alias SourceA, SourceA) ∈ dict_items d ∧
    dict_get d (cls_alias SourceA) = Some SourceA ∧
    (get_source Vacancy (cls_alias SourceA) st1).1 = Ok (Some SourceA).
Proof.
  split; [reflexivity|]. split; [discriminate|]. split; [reflexivity|].
  apply (declared_source_is_found init RemoteSource hh_body SourceA Vacancy);
    [reflexivity | discriminate | reflexivity].
Defined.

(** C2 on two classes declared under the alias "hh" of realm "vacancy". *)
Lemma last_registration_wins_witness :
  reachable init ∧
  SourceA = new_class init RemoteSource hh_body ∧
  after_SourceA = (class_stmt RemoteSource hh_body init).2 ∧
  SourceA2 = new_class after_SourceA RemoteSource hh2_body ∧
  cls_alias SourceA ≠ "" ∧
  cls_alias SourceA2 = cls_alias SourceA ∧
  cls_realm SourceA2 = cls_realm SourceA ∧
  cls_realm Vacancy = cls_realm SourceA ∧
  ∃ st2 d,
    class_stmt RemoteSource hh_body init = (Ok SourceA, after_SourceA) ∧
    class_stmt RemoteSource hh2_body after_SourceA = (Ok SourceA2, st2) ∧
    SourceA ≠ SourceA2 ∧
    (get_source Vacancy (cls_alias SourceA) st2).1 = Ok (Some SourceA2) ∧
    (get_sources Vacancy st2).1 = Ok d ∧
    dict_count d (cls_alias SourceA) = 1 ∧
    NoDup (dict_keys d).
Proof.
  split; [apply reach_init|]. split; [reflexivity|]. split; [reflexivity|].
  split; [reflexivity|]. split; [discriminate|]. split; [reflexivity|].
  split; [reflexivity|]. split; [reflexivity|].
  apply (last_registration_wins init RemoteSource hh_body RemoteSource hh2_body
           SourceA SourceA2 after_SourceA Vacancy);
    [apply reach_init | reflexivity | reflexivity | reflexivity | discriminate
    | reflexivity | reflexivity | reflexivity].
Defined.

(** C3 as stated fails on the code: a class with the alias "hh" and no realm
    of its own is registered, under the empty realm of [RemoteSource], and a
    lookup through [RemoteSource] finds it. *)
Lemma alias_without_realm_is_registered :
  cls_alias NoRealm ≠ "" ∧
  cls_realm NoRealm = "" ∧
  (class_stmt RemoteSource no_realm_body init).1 = Ok NoRealm ∧
  registry (class_stmt RemoteSource no_realm_body init).2 !! ""
  = Some [("hh", NoRealm)] ∧
  (get_source RemoteSource "hh"
     (class_stmt RemoteSource no_realm_body init).2).1 = Ok (Some NoRealm).
Proof.
  split; [discriminate|]. split; [reflexivity|]. split; [reflexivity|].
  split; reflexivity.
Qed.

(** The amended C3 on the class with an alias and no realm. *)
Lemma registration_depends_on_alias_only_witness :
  NoRealm = new_class init RemoteSource no_realm_body ∧
  cls_alias NoRealm ≠ "" ∧
  ∃ st1,
    class_stmt RemoteSource no_realm_body init = (Ok NoRealm, st1) ∧
    dict_get (bucket_of st1 (cls_realm NoRealm)) (cls_alias NoRealm)
    = Some NoRealm.
Proof.
  split; [reflexivity|]. split; [discriminate|].
  destruct (registration_depends_on_alias_only init RemoteSource no_realm_body
              NoRealm eq_refl) as (st1 & Hrun & Hreg & _).
  exists st1. split; [exact Hrun|]. apply Hreg. discriminate.
Defined.

(** C4 on the abstract base for vacancies, which has no alias: it is
    declared first, a source is declared as its subclass, and the base is
    looked for in the state after that. *)
Lemma empty_alias_never_registered_witness :
  Vacancy = new_class init RemoteSource vacancy_body ∧
  cls_alias Vacancy = "" ∧
  after_VacancySource
  = (class_stmt Vacancy hh_body
       (class_stmt RemoteSource vacancy_body init).2).2 ∧
  reachable after_VacancySource ∧
  (∃ st1, class_stmt RemoteSource vacancy_body init = (Ok Vacancy, st1) ∧
          registry st1 = registry init) ∧
  (∃ d, (get_sources Vacancy after_VacancySource).1 = Ok d ∧
        ∀ a, (a, Vacancy) ∉ dict_items d) ∧
  (∀ a, ∃ found, (get_source Vacancy a after_VacancySource).1 = Ok found ∧
                 found ≠ Some Vacancy) ∧
  (get_enum Vacancy after_VacancySource).1
  = Some (Ok (enum_of [("hh", VacancySource)])) ∧
  (∀ m, m ∈ enum_members (enum_of [("hh", VacancySource)]) ->
     member_value m ≠ cls_alias Vacancy ∧
     ∃ c, c ≠ Vacancy ∧
          (member_name m, c)
          ∈ bucket_of after_VacancySource (cls_realm Vacancy)).
Proof.
  split; [reflexivity|]. split; [reflexivity|]. split; [reflexivity|].
  split; [apply reachable_after_VacancySource|].
  destruct (empty_alias_never_registered init RemoteSource vacancy_body Vacancy
              eq_refl eq_refl) as [Hstmt Hnever].
  split; [exact Hstmt|].
  destruct (Hnever after_VacancySource Vacancy reachable_after_VacancySource)
    as (Hsources & Hsource & Henum).
  split; [exact Hsources|]. split; [exact Hsource|].
  split; [reflexivity|]. apply Henum. reflexivity.
Defined.

(** C5 as stated fails on the code: once a class is registered under the
    alias "mro", or under a [_sunder_] alias such as "_hh_", [get_enum] for
    its realm raises [ValueError] and gives no enumeration, although the
    class is registered and [get_source] finds it. *)
Lemma reserved_alias_breaks_get_enum :
  reachable (class_stmt RemoteSource mro_body after_SourceA).2 ∧
  (get_source Vacancy "mro" (class_stmt RemoteSource mro_body after_SourceA).2).1
  = Ok (Some (new_class after_SourceA RemoteSource mro_body)) ∧
  (get_enum Vacancy (class_stmt RemoteSource mro_body after_SourceA).2).1
  = Some (Raise ValueError) ∧
  reachable (class_stmt RemoteSource sunder_body after_SourceA).2 ∧
  (get_source Vacancy "_hh_"
     (class_stmt RemoteSource sunder_body after_SourceA).2).1
  = Ok (Some (new_class after_SourceA RemoteSource sunder_body)) ∧
  (get_enum Vacancy (class_stmt RemoteSource sunder_body after_SourceA).2).1
  = Some (Raise ValueError).
Proof.
  split; [apply reach_class; [apply reachable_after_SourceA | by left]|].
  split; [reflexivity|]. split; [reflexivity|].
  split; [apply reach_class; [apply reachable_after_SourceA | by left]|].
  split; reflexivity.
Qed.

(** The amended C5 in the state after [SourceA] and [SourceB]: two members
    for the realm of vacancies, none for the realm of [RemoteSource]. *)
Lemma get_enum_members_witness :
  reachable after_SourceB ∧
  Forall (λ alias, member_alias alias = true)
    (dict_keys (bucket_of after_SourceB (cls_realm Vacancy))) ∧
  Forall (λ alias, member_alias alias = true)
    (dict_keys (bucket_of after_SourceB (cls_realm RemoteSource))) ∧
  (∃ e, (get_enum Vacancy after_SourceB).1 = Some (Ok e) ∧
        enum_members e
        = [{| member_name := "hh"; member_value := "hh";
              member_label := "HeadHunter" |};
           {| member_name := "lnk"; member_value := "lnk";
              member_label := "LinkedIn" |}]) ∧
  (∃ e, (get_enum RemoteSource after_SourceB).1 = Some (Ok e)
        ∧ enum_members e = []).
Proof.
  assert (Hvacancy : Forall (λ alias, member_alias alias = true)
            (dict_keys (bucket_of after_SourceB (cls_realm Vacancy)))).
  { apply Forall_cons. split; [reflexivity|].
    apply Forall_cons. split; [reflexivity | apply Forall_nil_2]. }
  assert (Hroot : Forall (λ alias, member_alias alias = true)
            (dict_keys (bucket_of after_SourceB (cls_realm RemoteSource))))
    by apply Forall_nil_2.
  split; [apply reachable_after_SourceB|]. split; [exact Hvacancy|].
  split; [exact Hroot|]. split.
  - destruct (get_enum_members after_SourceB Vacancy reachable_after_SourceB
                Hvacancy) as (e & He & Hm & _).
    exists e. split; [exact He|]. rewrite Hm. reflexivity.
  - destruct (get_enum_members after_SourceB RemoteSource
                reachable_after_SourceB Hroot) as (e & He & Hm & _).
    exists e. split; [exact He|]. rewrite Hm. reflexivity.
Defined.


(** C7 in the state after [class SourceA(RemoteSource)]: the realm of
    [RemoteSource] has no registrations, and the realm of vacancies has none
    under "lnk". *)
Lemma lookup_miss_is_absent_witness :
  reachable after_SourceA ∧
  (get_sources RemoteSource after_SourceA).1 = Ok [] ∧
  (∀ a, (get_source RemoteSource a after_SourceA).1 = Ok None) ∧
  (get_source SourceA "lnk" after_SourceA).1 = Ok None.
Proof.
  split; [apply reachable_after_SourceA|].
  destruct (lookup_miss_is_absent after_SourceA RemoteSource
              reachable_after_SourceA) as (_ & _ & Hrealm).
  destruct (lookup_miss_is_absent after_SourceA SourceA
              reachable_after_SourceA) as (_ & Halias & _).
  split; [|split].
  - apply Hrealm. intros c Hc _. rewrite (classes_after_SourceA c Hc).
    discriminate.
  - apply Hrealm. intros c Hc _. rewrite (classes_after_SourceA c Hc).
    discriminate.
  - apply Halias. intros c Hc _ [_ Ha].
    rewrite (classes_after_SourceA c Hc) in Ha. discriminate.
Defined.

(** C8 in the state after [SourceA] and [SourceB], with two aliases in the
    realm of vacancies. *)
Lemma get_enum_uniqueness_check_passes_witness :
  reachable after_SourceB ∧
  dict_keys (bucket_of after_SourceB (cls_realm Vacancy)) = ["hh"; "lnk"] ∧
  NoDup (dict_keys (bucket_of after_SourceB (cls_realm Vacancy))) ∧
  (get_enum Vacancy after_SourceB).1
  = enum_create "Source"
      (item_of <$> bucket_of after_SourceB (cls_realm Vacancy)) ∧
  (get_enum Vacancy after_SourceB).1
  = Some (Ok (enum_of (bucket_of after_SourceB (cls_realm Vacancy)))) ∧
  unique (enum_of (bucket_of after_SourceB (cls_realm Vacancy)))
  = Ok (enum_of (bucket_of after_SourceB (cls_realm Vacancy))).
Proof.
  destruct (get_enum_uniqueness_check_passes after_SourceB Vacancy
              reachable_after_SourceB) as (Hnd & _ & _ & Hsame & Hunique & _).
  split; [apply reachable_after_SourceB|]. split; [reflexivity|].
  split; [exact Hnd|]. split; [exact Hsame|]. split; [reflexivity|].
  apply Hunique. reflexivity.
Defined.

(** C9 on [class SourceB(RemoteSource)] declared after [SourceA]: the realm
    of [RemoteSource] and the entry of [SourceA] are left alone. *)
Lemma registration_frame_witness :
  SourceB = new_class after_SourceA RemoteSource lnk_body ∧
  cls_realm RemoteSource ≠ cls_realm SourceB ∧
  (cls_realm SourceA, "hh") ≠ (cls_realm SourceB, cls_alias SourceB) ∧
  (get_sources RemoteSource
     (class_stmt RemoteSource lnk_body after_SourceA).2).1
  = (get_sources RemoteSource after_SourceA).1 ∧
  (get_source SourceA "hh" (class_stmt RemoteSource lnk_body after_SourceA).2).1
  = (get_source SourceA "hh" after_SourceA).1.
Proof.
  split; [reflexivity|]. split; [discriminate|]. split; [discriminate|].
  split.
  - apply (registration_frame after_SourceA RemoteSource lnk_body SourceB
             RemoteSource "hh" eq_refl).
    discriminate.
  - apply (registration_frame after_SourceA RemoteSource lnk_body SourceB
             SourceA "hh" eq_refl).
    discriminate.
Defined.

(** C10 on [class SubA(SourceA): pass] declared after [SourceA]. *)
Lemma subclass_takes_over_alias_witness :
  SubA = new_class after_SourceA SourceA pass ∧
  cls_alias SourceA ≠ "" ∧
  body_alias pass = None ∧
  body_realm pass = None ∧
  cls_realm Vacancy = cls_realm SourceA ∧
  cls_alias SubA = cls_alias SourceA ∧
  cls_realm SubA = cls_realm SourceA ∧
  SubA ≠ SourceA ∧
  ∃ st1,
    class_stmt SourceA pass after_SourceA = (Ok SubA, st1) ∧
    (get_source Vacancy (cls_alias SourceA) st1).1 = Ok (Some SubA) ∧
    (get_source Vacancy (cls_alias SourceA) st1).1 ≠ Ok (Some SourceA).
Proof.
  split; [reflexivity|]. split; [discriminate|]. split; [reflexivity|].
  split; [reflexivity|]. split; [reflexivity|].
  apply (subclass_takes_over_alias after_SourceA SourceA pass SubA Vacancy);
    [reflexivity | discriminate | reflexivity | reflexivity | reflexivity].
Defined.

(** The example of the specification: [SourceA] and [SourceB] declared for
    the realm "vacancy". *)
Example vacancy_scenario :
  (get_sources Vacancy after_SourceB).1
  = Ok [("hh", SourceA); ("lnk", SourceB)] ∧
  (get_enum Vacancy after_SourceB).1
  = Some (Ok {| enum_name := "Source";
                enum_members :=
                  [{| member_name := "hh"; member_value := "hh";
                      member_label := "HeadHunter" |};
                   {| member_name := "lnk"; member_value := "lnk";
                      member_label := "LinkedIn" |}];
                enum_aliases := [] |}) ∧
  (get_source RemoteSource "hh" after_SourceB).1 = Ok None.
Proof. repeat split. Qed.

(** * Further properties of the registry *)

(** ** More on dictionaries *)

Section DictOrder.
Context {V : Type}.
Implicit Types (d : dict V) (k : string) (v : V).

Lemma dict_setitem_absent d k v :
  dict_get d k = None -> dict_setitem d k v = d ++ [(k, v)].
Proof.
  induction d as [|[k0 v0] d IH]; simpl; [done|].
  destruct (decide (k0 = k)) as [->|Hne]; [done|].
  intros Hget. by rewrite IH.
Qed.

Lemma dict_setitem_present {B : Type} (f : string * V -> B) d k v v0 :
  dict_get d k = Some v0 -> f (k, v) = f (k, v0) ->
  f <$> dict_setitem d k v = f <$> d.
Proof.
  intros Hget Hf. induction d as [|[k0 v1] d IH]; simpl in *; [done|].
  destruct (decide (k0 = k)) as [->|Hne].
  - injection Hget as ->. by rewrite !fmap_cons, Hf.
  - by rewrite !fmap_cons, IH.
Qed.

Lemma dict_setitem_fmap_congr {B : Type} (f : string * V -> B) d k v v' :
  f (k, v) = f (k, v') ->
  f <$> dict_setitem d k v = f <$> dict_setitem d k v'.
Proof.
  intros Hf. induction d as [|[k0 v1] d IH]; simpl.
  - by rewrite Hf.
  - destruct (decide (k0 = k)) as [->|Hne].
    + by rewrite !fmap_cons, Hf.
    + by rewrite !fmap_cons, IH.
Qed.

Lemma dict_keys_setitem_prefix d k v :
  dict_keys d `prefix_of` dict_keys (dict_setitem d k v).
Proof.
  destruct (dict_get d k) as [v0|] eqn:Hget.
  - unfold dict_keys. by rewrite (dict_setitem_present fst d k v v0).
  - rewrite dict_setitem_absent by done. unfold dict_keys.
    rewrite fmap_app. by apply prefix_app_r.
Qed.
End DictOrder.

(** ** Lookup against the history of declarations *)

Lemma get_sources_classes cls st : classes (get_sources cls st).2 = classes st.
Proof. apply registry_getitem_classes. Qed.

Lemma get_sources_bucket cls st r :
  bucket_of (get_sources cls st).2 r = bucket_of st r.
Proof. apply registry_getitem_bucket. Qed.

Lemma latest_declared_ext st st' r a :
  classes st' = classes st -> latest_declared st' r a = latest_declared st r a.
Proof. unfold latest_declared. by intros ->. Qed.

Lemma reachable_latest st r a :
  reachable st -> dict_get (bucket_of st r) a = latest_declared st r a.
Proof.
  induction 1 as [|st base body _ IH _|st cls _ IH _
                  |st cls alias _ IH _|st cls _ IH _].
  - done.
  - rewrite class_stmt_bucket. rewrite class_stmt_run.
    set (cls := new_class st base body).
    unfold latest_declared. simpl classes. simpl List.find.
    fold (latest_declared st r a). rewrite <- IH.
    destruct (truthy (cls_alias cls)) eqn:Ht; simpl; [|done].
    case_bool_decide as Hr; simpl.
    + rewrite (bool_decide_eq_true_2 (cls_realm cls = r)) by done. simpl.
      case_bool_decide as Ha.
      * subst a. apply dict_get_setitem_eq.
      * by apply dict_get_setitem_ne.
    + by rewrite (bool_decide_eq_false_2 (cls_realm cls = r)).
  - rewrite get_sources_bucket, IH.
    symmetry. apply latest_declared_ext, get_sources_classes.
  - rewrite get_source_state, get_sources_bucket, IH.
    symmetry. apply latest_declared_ext, get_sources_classes.
  - rewrite get_enum_state, get_sources_bucket, IH.
    symmetry. apply latest_declared_ext, get_sources_classes.
Qed.

(** X1: in every reachable state [get_source] returns the most recently
    declared class that has the realm asked for and the alias asked for,
    the alias being non-empty, and [None] when no such class was declared. *)
Theorem get_source_is_latest_declaration st q a :
  reachable st ->
  (get_source q a st).1 = Ok (latest_declared st (cls_realm q) a).
Proof. intros Hre. by rewrite get_source_result, reachable_latest. Qed.

Lemma get_source_is_latest_declaration_witness :
  reachable (class_stmt RemoteSource hh2_body after_SourceA).2 ∧
  (get_source Vacancy "hh" (class_stmt RemoteSource hh2_body after_SourceA).2).1
  = Ok (Some SourceA2).
Proof.
  assert (Hre : reachable (class_stmt RemoteSource hh2_body after_SourceA).2)
    by (apply reach_class; [apply reachable_after_SourceA | by left]).
  split; [exact Hre|].
  rewrite (get_source_is_latest_declaration _ Vacancy "hh" Hre). reflexivity.
Defined.

(** ** The order of a realm's aliases *)

Lemma step_keys_prefix st st' r :
  step st st' ->
  dict_keys (bucket_of st r) `prefix_of` dict_keys (bucket_of st' r).
Proof.
  destruct 1 as [st base body _|st cls _|st cls alias _|st cls _].
  - rewrite class_stmt_bucket.
    destruct (_ && _); [apply dict_keys_setitem_prefix | done].
  - by rewrite get_sources_bucket.
  - by rewrite get_source_state, get_sources_bucket.
  - by rewrite get_enum_state, get_sources_bucket.
Qed.

(** X2: whatever a program goes on to do, the aliases that [get_sources]
    listed for a realm stay listed, first and in the same order; later
    registrations only add aliases at the end. *)
Theorem listing_order_is_stable st st' q :
  rtc step st st' ->
  ∃ d d',
    (get_sources q st).1 = Ok d ∧
    (get_sources q st').1 = Ok d' ∧
    dict_keys d `prefix_of` dict_keys d'.
Proof.
  intros Hsteps.
  exists (bucket_of st (cls_realm q)), (bucket_of st' (cls_realm q)).
  rewrite !get_sources_result. split; [done|]. split; [done|].
  induction Hsteps as [st|st st1 st' Hstep _ IH]; [done|].
  etrans; [by apply step_keys_prefix | exact IH].
Qed.

Lemma listing_order_is_stable_witness :
  rtc step after_SourceA (class_stmt RemoteSource lnk_body after_SourceA).2 ∧
  ∃ d d',
    (get_sources Vacancy after_SourceA).1 = Ok d ∧
    (get_sources Vacancy (class_stmt RemoteSource lnk_body after_SourceA).2).1
    = Ok d' ∧
    dict_keys d `prefix_of` dict_keys d'.
Proof.
  assert (Hsteps : rtc step after_SourceA
                     (class_stmt RemoteSource lnk_body after_SourceA).2)
    by (apply rtc_once, step_class; by left).
  split; [exact Hsteps|].
  apply (listing_order_is_stable _ _ Vacancy Hsteps).
Defined.

(** ** What a lookup does to the registry *)

(** X3: a call of [get_sources], [get_source] or [get_enum] binds the realm of
    its class in the registry (to an empty dict when the realm had no key),
    binds no other key, declares no class and changes the dict of no realm:
    later lookups, for any realm, see what they saw before. *)
Theorem lookup_binds_realm_only st q a :
  (get_source q a st).2 = (get_sources q st).2 ∧
  (get_enum q st).2 = (get_sources q st).2 ∧
  registry (get_sources q st).2 !! cls_realm q = Some (bucket_of st (cls_realm q)) ∧
  dom (registry (get_sources q st).2) = {[cls_realm q]} ∪ dom (registry st) ∧
  classes (get_sources q st).2 = classes st ∧
  ∀ r, bucket_of (get_sources q st).2 r = bucket_of st r.
Proof.
  split; [apply get_source_state|]. split; [apply get_enum_state|].
  split; [|split; [|split]].
  - unfold get_sources. rewrite registry_getitem_lookup. by rewrite decide_True.
  - unfold get_sources, registry_getitem.
    destruct (registry st !! cls_realm q) as [d|] eqn:Hq; simpl.
    + apply elem_of_dom_2 in Hq. symmetry. apply subseteq_union_1_L.
      by apply singleton_subseteq_l.
    + by rewrite dom_insert_L.
  - apply get_sources_classes.
  - intros r. apply get_sources_bucket.
Qed.

(** ** The enumeration follows the registry *)

Lemma class_stmt_bucket_own base body st cls :
  cls = new_class st base body -> cls_alias cls ≠ "" ->
  bucket_of (class_stmt base body st).2 (cls_realm cls)
  = dict_setitem (bucket_of st (cls_realm cls)) (cls_alias cls) cls.
Proof.
  intros -> Halias. rewrite class_stmt_bucket. simpl.
  by rewrite (proj2 (truthy_nonempty _) Halias), bool_decide_eq_true_2.
Qed.

(** X4: [get_enum] is computed anew from the registry at every call: when
    the aliases of a realm are names of members, and a class is declared
    under a further such alias that the realm did not have, the enumeration
    of the realm is afterwards the one from before followed by one new
    member, whose name and value are the alias and whose label is the title
    of the class. *)
Theorem get_enum_follows_registration st base body cls q :
  reachable st ->
  cls = new_class st base body ->
  cls_realm q = cls_realm cls ->
  (get_source q (cls_alias cls) st).1 = Ok None ->
  Forall (λ alias, member_alias alias = true)
    (dict_keys (bucket_of st (cls_realm q))) ->
  member_alias (cls_alias cls) = true ->
  ∃ e e',
    (get_enum q st).1 = Some (Ok e) ∧
    (get_enum q (class_stmt base body st).2).1 = Some (Ok e') ∧
    enum_members e'
    = enum_members e
      ++ [{| member_name := cls_alias cls; member_value := cls_alias cls;
             member_label := cls_title cls |}].
Proof.
  intros Hre Hcls Hq Hnew Hold Hmember.
  assert (Halias : cls_alias cls ≠ "").
  { intros Hempty. by rewrite Hempty in Hmember. }
  rewrite get_source_result in Hnew. injection Hnew as Hnew.
  pose proof (class_stmt_bucket_own _ _ _ cls Hcls Halias) as Hb.
  rewrite <- Hq in Hb. rewrite dict_setitem_absent in Hb by done.
  exists (enum_of (bucket_of st (cls_realm q))),
         (enum_of (bucket_of (class_stmt base body st).2 (cls_realm q))).
  split; [by apply get_enum_result; [apply reachable_wf|]|].
  split.
  - apply get_enum_result; [by apply wf_class_stmt, reachable_wf|].
    rewrite Hb. unfold dict_keys. rewrite fmap_app. apply Forall_app.
    split; [done|]. apply Forall_cons. split; [done | apply Forall_nil_2].
  - rewrite Hb. simpl. by rewrite fmap_app.
Qed.

Lemma get_enum_follows_registration_witness :
  reachable after_SourceA ∧
  SourceB = new_class after_SourceA RemoteSource lnk_body ∧
  cls_realm Vacancy = cls_realm SourceB ∧
  (get_source Vacancy (cls_alias SourceB) after_SourceA).1 = Ok None ∧
  Forall (λ alias, member_alias alias = true)
    (dict_keys (bucket_of after_SourceA (cls_realm Vacancy))) ∧
  member_alias (cls_alias SourceB) = true ∧
  ∃ e e',
    (get_enum Vacancy after_SourceA).1 = Some (Ok e) ∧
    (get_enum Vacancy (class_stmt RemoteSource lnk_body after_SourceA).2).1
    = Some (Ok e') ∧
    enum_members e'
    = enum_members e
      ++ [{| member_name := cls_alias SourceB; member_value := cls_alias SourceB;
             member_label := cls_title SourceB |}].
Proof.
  assert (Hold : Forall (λ alias, member_alias alias = true)
            (dict_keys (bucket_of after_SourceA (cls_realm Vacancy)))).
  { apply Forall_cons. split; [reflexivity | apply Forall_nil_2]. }
  split; [apply reachable_after_SourceA|]. split; [reflexivity|].
  split; [reflexivity|]. split; [reflexivity|]. split; [exact Hold|].
  split; [reflexivity|].
  apply (get_enum_follows_registration after_SourceA RemoteSource lnk_body
           SourceB Vacancy);
    [apply reachable_after_SourceA | reflexivity | reflexivity | reflexivity
    | exact Hold | reflexivity].
Defined.

(** X5: when a subclass that assigns neither [alias], [realm] nor [title]
    takes over the entry of its registered base, the enumeration of the realm
    and the list of its aliases stay exactly as they were: the change shows
    in [get_source] only. *)
Theorem takeover_is_invisible_to_get_enum st parent body child q :
  reachable st ->
  child = new_class st parent body ->
  body_alias body = None -> body_realm body = None -> body_title body = None ->
  cls_realm q = cls_realm parent ->
  (get_source q (cls_alias parent) st).1 = Ok (Some parent) ->
  (get_enum q (class_stmt parent body st).2).1 = (get_enum q st).1 ∧
  dict_keys (bucket_of (class_stmt parent body st).2 (cls_realm q))
  = dict_keys (bucket_of st (cls_realm q)) ∧
  (get_source q (cls_alias parent) (class_stmt parent body st).2).1
  = Ok (Some child).
Proof.
  intros Hre Hchild Hba Hbr Hbt Hq Hreg.
  rewrite get_source_result in Hreg. injection Hreg as Hreg.
  assert (Ha : cls_alias child = cls_alias parent).
  { subst child. unfold new_class, cls_alias, getattr. simpl. by rewrite Hba. }
  assert (Hr : cls_realm child = cls_realm parent).
  { subst child. unfold new_class, cls_realm, getattr. simpl. by rewrite Hbr. }
  assert (Ht : cls_title child = cls_title parent).
  { subst child. unfold new_class, cls_title, getattr. simpl. by rewrite Hbt. }
  assert (Halias : cls_alias child ≠ "").
  { rewrite Ha. apply dict_get_Some_elem in Hreg.
    by destruct (reachable_entry _ _ _ _ Hre Hreg) as (_ & _ & _ & ?). }
  pose proof (class_stmt_bucket_own parent body st child Hchild Halias) as Hb.
  rewrite Hr, Ha, <- Hq in Hb.
  rewrite !get_enum_answer, get_source_result.
  rewrite Hb. split; [|split].
  - f_equal.
    apply (dict_setitem_present _ _ _ _ parent); [done|].
    unfold item_of. simpl. by rewrite Ht.
  - unfold dict_keys. by apply (dict_setitem_present fst _ _ _ parent).
  - by rewrite dict_get_setitem_eq.
Qed.

Lemma takeover_is_invisible_to_get_enum_witness :
  reachable after_SourceA ∧
  SubA = new_class after_SourceA SourceA pass ∧
  body_alias pass = None ∧ body_realm pass = None ∧ body_title pass = None ∧
  cls_realm Vacancy = cls_realm SourceA ∧
  (get_source Vacancy (cls_alias SourceA) after_SourceA).1 = Ok (Some SourceA) ∧
  (get_enum Vacancy (class_stmt SourceA pass after_SourceA).2).1
  = (get_enum Vacancy after_SourceA).1 ∧
  dict_keys (bucket_of (class_stmt SourceA pass after_SourceA).2
               (cls_realm Vacancy))
  = dict_keys (bucket_of after_SourceA (cls_realm Vacancy)) ∧
  (get_source Vacancy (cls_alias SourceA)
     (class_stmt SourceA pass after_SourceA).2).1 = Ok (Some SubA).
Proof.
  split; [apply reachable_after_SourceA|]. split; [reflexivity|].
  split; [reflexivity|]. split; [reflexivity|]. split; [reflexivity|].
  split; [reflexivity|]. split; [reflexivity|].
  apply (takeover_is_invisible_to_get_enum after_SourceA SourceA pass SubA
           Vacancy);
    [apply reachable_after_SourceA | reflexivity ..].
Defined.

(** ** The flag [active] *)

Lemma with_active_attrs st base body act :
  cls_alias (new_class st base (with_active act body))
  = cls_alias (new_class st base body) ∧
  cls_realm (new_class st base (with_active act body))
  = cls_realm (new_class st base body) ∧
  cls_title (new_class st base (with_active act body))
  = cls_title (new_class st base body).
Proof. done. Qed.

(** X6: the registry never reads [active]: a class declared with any value
    of the flag, [False] included, is registered under its alias, and the
    aliases and the enumeration of every realm are the same as if the flag
    had been left alone. *)
Theorem registry_ignores_active st base body act q :
  reachable st ->
  dict_keys (bucket_of (class_stmt base (with_active act body) st).2 (cls_realm q))
  = dict_keys (bucket_of (class_stmt base body st).2 (cls_realm q)) ∧
  (get_enum q (class_stmt base (with_active act body) st).2).1
  = (get_enum q (class_stmt base body st).2).1 ∧
  (cls_alias (new_class st base body) ≠ "" ->
   cls_realm q = cls_realm (new_class st base body) ->
   (get_source q (cls_alias (new_class st base body))
      (class_stmt base (with_active act body) st).2).1
   = Ok (Some (new_class st base (with_active act body)))).
Proof.
  intros Hre. pose proof (reachable_wf st Hre) as Hwf.
  destruct (with_active_attrs st base body act) as (Ha & Hr & Ht).
  rewrite !get_enum_answer.
  rewrite get_source_result, !class_stmt_bucket. simpl.
  rewrite Ha, Hr.
  set (c := new_class st base body) in *.
  set (c' := new_class st base (with_active act body)) in *.
  split; [|split].
  - destruct (_ && _); [|done]. unfold dict_keys.
    by apply dict_setitem_fmap_congr.
  - f_equal. destruct (_ && _); [|done].
    apply dict_setitem_fmap_congr. unfold item_of. simpl.
    by rewrite Ht.
  - intros Halias Hq.
    rewrite (proj2 (truthy_nonempty _) Halias), bool_decide_eq_true_2 by done.
    simpl. by rewrite dict_get_setitem_eq.
Qed.

Lemma registry_ignores_active_witness :
  reachable init ∧
  dict_keys (bucket_of (class_stmt RemoteSource (with_active (Some false) hh_body)
                          init).2 (cls_realm Vacancy))
  = dict_keys (bucket_of (class_stmt RemoteSource hh_body init).2
                 (cls_realm Vacancy)) ∧
  (get_enum Vacancy
     (class_stmt RemoteSource (with_active (Some false) hh_body) init).2).1
  = (get_enum Vacancy (class_stmt RemoteSource hh_body init).2).1 ∧
  cls_active (new_class init RemoteSource (with_active (Some false) hh_body))
  = false ∧
  (get_source Vacancy "hh"
     (class_stmt RemoteSource (with_active (Some false) hh_body) init).2).1
  = Ok (Some (new_class init RemoteSource (with_active (Some false) hh_body))).
Proof.
  destruct (registry_ignores_active init RemoteSource hh_body (Some false)
              Vacancy reach_init) as (Hkeys & Henum & Hget).
  split; [apply reach_init|]. split; [exact Hkeys|]. split; [exact Henum|].
  split; [reflexivity|]. apply Hget; [discriminate | reflexivity].
Defined.

(** ** The enumeration and the lookup agree *)

(** X16: in every reachable state in which the aliases registered for a
    realm are names of members, the values of the enumeration of the realm
    are exactly the aliases that [get_source] resolves in that realm; the
    class found for the value of a member has the label of the member as its
    title, and the name of a member is its value. *)
Theorem get_enum_agrees_with_get_source st q :
  reachable st ->
  Forall (λ alias, member_alias alias = true)
    (dict_keys (bucket_of st (cls_realm q))) ->
  ∃ e,
    (get_enum q st).1 = Some (Ok e) ∧
    (∀ m, m ∈ enum_members e ->
       member_name m = member_value m ∧
       ∃ c, (get_source q (member_value m) st).1 = Ok (Some c)
            ∧ member_label m = cls_title c) ∧
    (∀ a c, (get_source q a st).1 = Ok (Some c) ->
       {| member_name := a; member_value := a; member_label := cls_title c |}
       ∈ enum_members e).
Proof.
  intros Hre Hnames. pose proof (reachable_wf st Hre) as Hwf.
  destruct (wf_bucket_of st (cls_realm q) Hwf) as [Hnd _].
  exists (enum_of (bucket_of st (cls_realm q))).
  split; [by apply get_enum_result|]. split.
  - intros m Hm. simpl in Hm.
    apply list_elem_of_fmap in Hm as ([a c] & -> & Hin). simpl.
    split; [done|]. exists c. split; [|done].
    by rewrite get_source_result, (dict_elem_get _ a c).
  - intros a c Hget. rewrite get_source_result in Hget. injection Hget as Hget.
    apply dict_get_Some_elem in Hget. simpl.
    by apply (list_elem_of_fmap_2 (to_member ∘ item_of) _ (a, c)).
Qed.

Lemma get_enum_agrees_with_get_source_witness :
  reachable after_SourceB ∧
  Forall (λ alias, member_alias alias = true)
    (dict_keys (bucket_of after_SourceB (cls_realm Vacancy))) ∧
  ∃ e,
    (get_enum Vacancy after_SourceB).1 = Some (Ok e) ∧
    (∀ m, m ∈ enum_members e ->
       member_name m = member_value m ∧
       ∃ c, (get_source Vacancy (member_value m) after_SourceB).1 = Ok (Some c)
            ∧ member_label m = cls_title c) ∧
    (∀ a c, (get_source Vacancy a after_SourceB).1 = Ok (Some c) ->
       {| member_name := a; member_value := a; member_label := cls_title c |}
       ∈ enum_members e).
Proof.
  assert (Hnames : Forall (λ alias, member_alias alias = true)
            (dict_keys (bucket_of after_SourceB (cls_realm Vacancy)))).
  { apply Forall_cons. split; [reflexivity|].
    apply Forall_cons. split; [reflexivity | apply Forall_nil_2]. }
  split; [apply reachable_after_SourceB|]. split; [exact Hnames|].
  apply (get_enum_agrees_with_get_source after_SourceB Vacancy
           reachable_after_SourceB Hnames).
Defined.

(** * Properties of the views *)

Module ViewsFacts.
Import Views.

(** ** The index page *)

Lemma index_loop_spec externals items realms_data :
  index_loop externals items realms_data
  = realms_data
    ++ (shown_entry externals
        <$> filter (λ item, show_on_main item.2 = true) items).
Proof.
  revert realms_data.
  induction items as [|[name realm] items IH]; intros realms_data; simpl.
  - by rewrite app_nil_r.
  - destruct (show_on_main realm) eqn:Hshow.
    + rewrite IH, filter_cons_True by done.
      by rewrite fmap_cons, <- app_assoc.
    + rewrite IH, filter_cons_False; [done|]. simpl. by rewrite Hshow.
Qed.

Lemma index_realm_cls externals name realm :
  data_cls (index_realm externals name realm) = realm.
Proof. unfold index_realm. by destruct (take _ _). Qed.

Lemma index_realm_bounded externals name realm :
  (length (data_additional (index_realm externals name realm)) ≤ max_additional)%nat.
Proof.
  unfold index_realm.
  set (exts := default [] (dict_get externals name)).
  destruct (take _ (get_actual realm)) as [|m rest] eqn:Htake; simpl; [lia|].
  assert (Hlen : (length (m :: rest)
                  ≤ if decide (length exts < max_additional)
                    then 1 + (max_additional - length exts) else 1)%nat).
  { rewrite <- Htake, length_take. lia. }
  rewrite length_app, !length_fmap, length_take. simpl in Hlen.
  destruct (decide (length exts < max_additional)); lia.
Qed.

Lemma index_realm_main externals name realm :
  data_main (index_realm externals name realm) = head (get_actual realm) ∧
  (data_main (index_realm externals name realm) = None ->
   data_additional (index_realm externals name realm) = []).
Proof.
  unfold index_realm.
  set (n := if decide (_ < _) then _ else _).
  assert (Hn : ∃ n', n = S n').
  { unfold n. destruct (decide _); by eexists. }
  destruct Hn as [n' ->].
  destruct (get_actual realm) as [|m rest]; simpl; [done|].
  split; [done|]. discriminate.
Qed.

(** X7: every element of [realms_data] belongs to a realm that is shown on
    the main page, has at most five additional entries, and has as [main]
    the first actual object of the realm; for a realm without actual objects
    [main] is empty and so is [additional], whatever external resources the
    realm has. *)
Theorem index_entries_bounded realms_registry rows rd :
  rd ∈ index realms_registry rows ->
  show_on_main (data_cls rd) = true ∧
  (length (data_additional rd) ≤ 5)%nat ∧
  data_main rd = head (get_actual (data_cls rd)) ∧
  (get_actual (data_cls rd) = [] -> data_additional rd = []).
Proof.
  unfold index. rewrite index_loop_spec. simpl.
  intros ([name realm] & -> & Hin)%list_elem_of_fmap.
  apply list_elem_of_filter in Hin as [Hshow _]. simpl in Hshow.
  unfold shown_entry. simpl. rewrite index_realm_cls.
  destruct (index_realm_main (index_externals realms_registry rows) name realm)
    as [Hmain Hnone].
  split; [done|]. split; [apply index_realm_bounded|]. split; [done|].
  intros Hempty. apply Hnone. by rewrite Hmain, Hempty.
Qed.

(** X8: [realms_data] has exactly one element for every realm with
    [show_on_main], in the order of the registry of realms, and none for the
    other realms. *)
Theorem index_shows_realms_in_order realms_registry rows :
  data_cls <$> index realms_registry rows
  = filter (λ realm, show_on_main realm = true) (dict_items realms_registry).*2.
Proof.
  unfold index. rewrite index_loop_spec. simpl. unfold dict_items.
  generalize (index_externals realms_registry rows). intros externals.
  induction realms_registry as [|[name realm] reg IH]; [done|].
  rewrite fmap_cons. simpl.
  destruct (show_on_main realm) eqn:Hshow.
  - rewrite !filter_cons_True by done. rewrite !fmap_cons.
    unfold shown_entry at 1. simpl. rewrite index_realm_cls. by f_equal.
  - rewrite !filter_cons_False by (simpl; by rewrite Hshow). done.
Qed.

Lemma index_realm_block externals name realm m rest :
  get_actual realm = m :: rest ->
  data_main (index_realm externals name realm) = Some m ∧
  data_additional (index_realm externals name realm)
  = (OwnObject
     <$> take (max_additional - length (default [] (dict_get externals name)))
           rest)
    ++ (External <$> take max_additional (default [] (dict_get externals name))).
Proof.
  intros Hactual. unfold index_realm. rewrite Hactual.
  set (exts := default [] (dict_get externals name)).
  destruct (decide (length exts < max_additional)) as [Hlt|Hge]; simpl.
  - done.
  - replace (max_additional - length exts)%nat with 0%nat by lia. done.
Qed.

(** X9: a shown realm with actual objects gets its first object as [main];
    [additional] holds the next own objects and then at most five external
    resources, the own objects filling the places that the external ones
    leave of five.  With five or more further objects and resources together
    the block is full: five additional entries. *)
Theorem index_realm_gets_block realms_registry rows name realm m rest :
  (name, realm) ∈ dict_items realms_registry ->
  show_on_main realm = true ->
  get_actual realm = m :: rest ->
  ∃ rd exts,
    rd ∈ index realms_registry rows ∧
    exts = default [] (dict_get (index_externals realms_registry rows) name) ∧
    data_cls rd = realm ∧
    data_main rd = Some m ∧
    data_additional rd
    = (OwnObject <$> take (5 - length exts) rest)
      ++ (External <$> take 5 exts) ∧
    ((5 ≤ length rest + length exts)%nat -> length (data_additional rd) = 5%nat).
Proof.
  intros Hin Hshow Hactual.
  exists (index_realm (index_externals realms_registry rows) name realm),
         (default [] (dict_get (index_externals realms_registry rows) name)).
  destruct (index_realm_block (index_externals realms_registry rows) name realm
              m rest Hactual) as [Hmain Hadd].
  split.
  { unfold index. rewrite index_loop_spec. simpl.
    apply (list_elem_of_fmap_2 (shown_entry _) _ (name, realm)).
    by apply list_elem_of_filter. }
  split; [done|]. split; [apply index_realm_cls|]. split; [done|].
  split; [done|].
  intros Hfull. rewrite Hadd, length_app, !length_fmap, !length_take.
  unfold max_additional. lia.
Qed.

(** ** Grouping the external resources *)

Section Groupby.
Context {A : Type} (key : A -> string).

Lemma groupby_cons x l :
  groupby key (x :: l)
  = match groupby key l with
    | (k, g) :: gs =>
        if decide (key x = k) then (k, x :: g) :: gs
        else (key x, [x]) :: (k, g) :: gs
    | [] => [(key x, [x])]
    end.
Proof. reflexivity. Qed.

Lemma groupby_head x l :
  ∃ g gs, groupby key (x :: l) = (key x, g) :: gs.
Proof.
  rewrite groupby_cons. destruct (groupby key l) as [|[k g] gs]; [by eexists _, _|].
  destruct (decide (key x = k)) as [<-|Hne]; by eexists _, _.
Qed.

Lemma groupby_app l1 l2 :
  (∀ x y, last l1 = Some x -> head l2 = Some y -> key x ≠ key y) ->
  groupby key (l1 ++ l2) = groupby key l1 ++ groupby key l2.
Proof.
  induction l1 as [|x l1 IH]; intros Hbound; [done|].
  destruct l1 as [|x' l1].
  - change ([x] ++ l2) with (x :: l2). rewrite groupby_cons.
    destruct l2 as [|y l2]; [done|].
    destruct (groupby_head y l2) as (g & gs & Hg). rewrite Hg.
    rewrite decide_False; [done|]. by apply Hbound.
  - change ((x :: x' :: l1) ++ l2) with (x :: ((x' :: l1) ++ l2)).
    rewrite groupby_cons, IH.
    + rewrite (groupby_cons x (x' :: l1)).
      destruct (groupby_head x' l1) as (g & gs & Hg). rewrite Hg.
      rewrite <- app_comm_cons.
      by destruct (decide (key x = key x')).
    + intros a b Ha Hb. apply Hbound; [|done]. by rewrite last_cons_cons.
Qed.

Lemma groupby_run k run :
  run ≠ [] -> Forall (λ x, key x = k) run -> groupby key run = [(k, run)].
Proof.
  induction run as [|x run IH]; [done|]. intros _ Hall.
  apply Forall_cons in Hall as [Hx Hall]. simpl.
  destruct run as [|x' run]; [by rewrite Hx|].
  rewrite IH by done. by rewrite decide_True.
Qed.

Lemma groupby_keys l g :
  g ∈ groupby key l -> ∃ x, x ∈ l ∧ key x = g.1.
Proof.
  revert g. induction l as [|x l IH]; intros g; simpl.
  - by intros ?%elem_of_nil.
  - destruct (groupby key l) as [|[k g0] gs].
    + intros ->%list_elem_of_singleton. exists x. split; [left|done].
    + destruct (decide (key x = k)) as [Hk|Hne].
      * intros [->|Hin]%elem_of_cons.
        -- exists x. split; [left|done].
        -- destruct (IH g) as (y & Hy & Hky); [by right|].
           exists y. split; [by right|done].
      * intros [->|Hin]%elem_of_cons.
        -- exists x. split; [left|done].
        -- destruct (IH g Hin) as (y & Hy & Hky).
           exists y. split; [by right|done].
Qed.
End Groupby.

Lemma dict_of_pairs_last {V : Type} (before after : list (string * V)) k v :
  Forall (λ kv, kv.1 ≠ k) after ->
  dict_get (dict_of_pairs (before ++ (k, v) :: after)) k = Some v.
Proof.
  intros Hafter. unfold dict_of_pairs.
  rewrite fold_left_app. simpl.
  generalize (fold_left (λ d kv, dict_setitem d kv.1 kv.2) before []).
  intros d.
  assert (Hkeep : ∀ d0 : dict V,
    dict_get (fold_left (λ d kv, dict_setitem d kv.1 kv.2) after d0) k
    = dict_get d0 k).
  { induction Hafter as [|[k' v'] after Hk _ IH]; intros d0; [done|].
    simpl. rewrite IH. by apply dict_get_setitem_ne. }
  by rewrite Hkeep, dict_get_setitem_eq.
Qed.

(** X10: [groupby] runs over rows that are not sorted, so [externals] holds
    for a realm only the last run of consecutive rows of that realm: when the
    selected rows end in a run for [k], preceded by a row of another realm and
    followed by rows of other realms only, the entry of [k] is that run, and
    earlier rows of [k] are lost. *)
Theorem index_externals_keeps_last_run realms_registry rows before run after k :
  filter (λ e, realm_name e ∈ dict_keys realms_registry) rows
  = before ++ run ++ after ->
  run ≠ [] ->
  Forall (λ e, realm_name e = k) run ->
  Forall (λ e, realm_name e ≠ k) after ->
  (∀ e, last before = Some e -> realm_name e ≠ k) ->
  dict_get (index_externals realms_registry rows) k = Some run.
Proof.
  intros Hrows Hrun Hall Hafter Hbefore. unfold index_externals.
  rewrite Hrows.
  destruct run as [|e0 run']; [done|].
  pose proof (Forall_inv Hall) as He0. simpl in He0.
  rewrite groupby_app.
  2:{ intros x y Hx Hy. injection Hy as <-. rewrite He0. by apply Hbefore. }
  rewrite (groupby_app _ (e0 :: run') after).
  2:{ intros x y Hx Hy. apply last_Some_elem_of in Hx.
      rewrite (proj1 (Forall_forall _ _) Hall x Hx).
      destruct after as [|a after']; [done|]. injection Hy as <-.
      apply Forall_inv in Hafter. simpl in Hafter. congruence. }
  rewrite (groupby_run realm_name k (e0 :: run')) by done.
  apply dict_of_pairs_last. apply Forall_forall. intros g Hg.
  apply groupby_keys in Hg as (x & Hx & <-).
  by apply (proj1 (Forall_forall _ _) Hafter).
Qed.

(** ** The links of a category page *)

Lemma realms_links_loop_spec category realms acc :
  NoDup (dict_keys acc) ->
  NoDup (dict_keys (realms_links_loop category realms acc)) ∧
  (∀ kv, kv ∈ realms_links_loop category realms acc ->
     kv ∈ acc ∨ ∃ realm, realm ∈ realms ∧ linked category realm
                          ∧ kv = link_of category realm) ∧
  (∀ k, k ∈ dict_keys acc ->
     k ∈ dict_keys (realms_links_loop category realms acc)) ∧
  (∀ realm, realm ∈ realms -> linked category realm ->
     get_verbose_name_plural realm
     ∈ dict_keys (realms_links_loop category realms acc)).
Proof.
  revert acc. induction realms as [|realm realms IH]; intros acc Hnd; simpl.
  { split; [done|]. split; [by left|]. split; [done|].
    by intros realm ?%elem_of_nil. }
  assert (Hskip : ¬ linked category realm ->
    NoDup (dict_keys (realms_links_loop category realms acc)) ∧
    (∀ kv, kv ∈ realms_links_loop category realms acc ->
       kv ∈ acc ∨ ∃ r, r ∈ realm :: realms ∧ linked category r
                        ∧ kv = link_of category r) ∧
    (∀ k, k ∈ dict_keys acc ->
       k ∈ dict_keys (realms_links_loop category realms acc)) ∧
    (∀ r, r ∈ realm :: realms -> linked category r ->
       get_verbose_name_plural r
       ∈ dict_keys (realms_links_loop category realms acc))).
  { intros Hnot. destruct (IH acc Hnd) as (H1 & H2 & H3 & H4).
    split; [done|]. split; [|split; [done|]].
    - intros kv Hkv. destruct (H2 kv Hkv) as [?|(r & Hr & Hl & ->)]; [by left|].
      right. exists r. split; [by right|done].
    - intros r [->|Hr]%elem_of_cons Hl; [done|]. by apply H4. }
  destruct (has_categories realm) eqn:Hcat; simpl.
  2:{ apply Hskip. intros [Hc _]. congruence. }
  destruct (get_objects_in_category realm category) as [|i items] eqn:Hitems.
  { apply Hskip. by intros [_ Hi]. }
  assert (Hlinked : linked category realm).
  { split; [done|]. by rewrite Hitems. }
  set (acc' := dict_setitem acc (get_verbose_name_plural realm)
                 ((get_names realm).2, i :: items)).
  assert (Hnd' : NoDup (dict_keys acc')) by by apply dict_setitem_NoDup.
  destruct (IH acc' Hnd') as (H1 & H2 & H3 & H4).
  split; [done|]. split; [|split].
  - intros kv Hkv. destruct (H2 kv Hkv) as [Hacc|(r & Hr & Hl & ->)].
    + apply elem_of_dict_setitem in Hacc; [|done].
      destruct Hacc as [->|[Hin _]]; [|by left].
      right. exists realm. split; [left|]. split; [done|].
      unfold link_of. by rewrite Hitems.
    + right. exists r. split; [by right|done].
  - intros k Hk. apply H3, dict_keys_setitem. by right.
  - intros r [->|Hr]%elem_of_cons Hl; [|by apply H4].
    apply H3, dict_keys_setitem. by left.
Qed.

(** X11: [realms_links] has pairwise distinct titles; every entry stems
    from a realm whose model has categories, carries the plural name of the
    realm and its objects in the category, and these are never empty; every
    realm with categories and objects in the category has its title among
    the keys. *)
Theorem realms_links_entries category realms :
  NoDup (dict_keys (realms_links category realms)) ∧
  (∀ title plural items,
     (title, (plural, items)) ∈ realms_links category realms ->
     items ≠ [] ∧
     ∃ realm, realm ∈ realms ∧ has_categories realm = true
              ∧ get_verbose_name_plural realm = title
              ∧ (get_names realm).2 = plural
              ∧ get_objects_in_category realm category = items) ∧
  (∀ realm, realm ∈ realms -> has_categories realm = true ->
     get_objects_in_category realm category ≠ [] ->
     get_verbose_name_plural realm ∈ dict_keys (realms_links category realms)).
Proof.
  destruct (realms_links_loop_spec category realms [] (NoDup_nil_2))
    as (Hnd & Hfrom & _ & Hall).
  split; [done|]. split.
  - intros title plural items Hin.
    destruct (Hfrom _ Hin) as [?%elem_of_nil|(realm & Hr & [Hc Hi] & Heq)];
      [done|].
    unfold link_of in Heq. injection Heq as -> -> ->.
    split; [done|]. by exists realm.
  - intros realm Hr Hc Hi. by apply Hall.
Qed.

(** ** The outcome of a search *)

Section SearchFacts.
Context (search_models : string -> string * list nat).
Context (reverse : string -> string) (get_absolute_url : nat -> string).
Context (quote_plus : string -> string) (YANDEX_SEARCH_ID : string).

(** X12: a request without [text] is answered like one with an empty text;
    the page of results is rendered only for a non-empty search term with two
    or more results, with their number as [results_len]; the missing term is
    recorded and the warning is shown exactly when the term is non-empty and
    nothing was found. *)
Theorem search_outcome POST_text :
  search search_models reverse get_absolute_url quote_plus YANDEX_SEARCH_ID None
  = search search_models reverse get_absolute_url quote_plus YANDEX_SEARCH_ID (Some "") ∧
  (∀ template search_term results results_len,
     (search search_models reverse get_absolute_url quote_plus YANDEX_SEARCH_ID
        POST_text).1 = Render template search_term results results_len ->
     search_models (default "" POST_text) = (search_term, results) ∧
     truthy search_term = true ∧
     (2 ≤ length results)%nat ∧ results_len = length results ∧
     (search search_models reverse get_absolute_url quote_plus YANDEX_SEARCH_ID
        POST_text).2 = []) ∧
  (search search_models reverse get_absolute_url quote_plus YANDEX_SEARCH_ID
        POST_text).2
  = (if truthy (search_models (default "" POST_text)).1
     then match (search_models (default "" POST_text)).2 with
          | [] => [ReferenceMissing_add (search_models (default "" POST_text)).1;
                   message_warning warning_text]
          | _ :: _ => []
          end
     else []).
Proof.
  split; [done|]. unfold search.
  destruct (search_models (default "" POST_text)) as [term results]; simpl.
  destruct (truthy term) eqn:Hterm; simpl.
  - destruct results as [|r1 [|r2 results]]; simpl.
    + split; [|done]. intros ? ? ? ? [=].
    + split; [|done]. intros ? ? ? ? [=].
    + split; [|done]. intros ? ? ? ? [= <- <- <- <-].
      repeat split; simpl; [done | lia].
  - split; [|done]. intros ? ? ? ? [=].
Qed.
End SearchFacts.
Section PepFacts.
Context {Obj : Type} (field : string -> Obj -> Z).
Context (isdigit : string -> bool) (int : string -> result Z).

Lemma apply_object_filter_loop_spec request attrs applied0 objects0
    applied objects :
  apply_object_filter_loop field isdigit int request attrs applied0 objects0
  = Ok (applied, objects) ->
  objects `sublist_of` objects0 ∧
  (applied = false -> applied0 = false ∧ objects = objects0) ∧
  (applied = true ->
   applied0 = true ∨
   ∃ attr values n, (attr, values) ∈ attrs ∧ accepted isdigit int request attr values n) ∧
  (∀ attr values n, (attr, values) ∈ attrs ->
     accepted isdigit int request attr values n ->
     applied = true ∧ ∀ o, o ∈ objects -> field attr o = n).
Proof.
  revert applied0 objects0.
  induction attrs as [|[attr values] attrs IH]; intros applied0 objects0; simpl.
  { intros [= <- <-]. split; [done|]. split; [done|]. split; [by left|].
    by intros ? ? ? ?%elem_of_nil. }
  assert (Hskip : (∀ n, ¬ accepted isdigit int request attr values n) ->
    apply_object_filter_loop field isdigit int request attrs applied0 objects0
    = Ok (applied, objects) ->
    objects `sublist_of` objects0 ∧
    (applied = false -> applied0 = false ∧ objects = objects0) ∧
    (applied = true ->
     applied0 = true ∨
     ∃ a vs n, (a, vs) ∈ (attr, values) :: attrs ∧ accepted isdigit int request a vs n) ∧
    (∀ a vs n, (a, vs) ∈ (attr, values) :: attrs ->
       accepted isdigit int request a vs n ->
       applied = true ∧ ∀ o, o ∈ objects -> field a o = n)).
  { intros Hnot Hrun. destruct (IH _ _ Hrun) as (H1 & H2 & H3 & H4).
    split; [done|]. split; [done|]. split.
    - intros Ht. destruct (H3 Ht) as [?|(a & vs & n & Hin & Hacc)]; [by left|].
      right. exists a, vs, n. split; [by right|done].
    - intros a vs n [Heq|Hin]%elem_of_cons Hacc; [|by eapply H4].
      injection Heq as -> ->. by destruct (Hnot n). }
  destruct (GET request attr) as [val|] eqn:Hget.
  2:{ apply Hskip. intros n (v & Hv & _). congruence. }
  destruct (truthy val && isdigit val) eqn:Hdigit.
  2:{ apply Hskip. intros n (v & Hv & Ht & Hd & _).
      rewrite Hget in Hv. injection Hv as <-. by rewrite Ht, Hd in Hdigit. }
  apply andb_true_iff in Hdigit as [Ht Hd].
  destruct (int val) as [n|e] eqn:Hint; [|done].
  case_bool_decide as Hn.
  2:{ apply Hskip. intros n' (v & Hv & _ & _ & Hi & Hin).
      rewrite Hget in Hv. injection Hv as <-. congruence. }
  intros Hrun. destruct (IH _ _ Hrun) as (H1 & H2 & H3 & H4).
  assert (Hacc : accepted isdigit int request attr values n) by by exists val.
  split; [|split; [|split]].
  - etrans; [exact H1 | apply sublist_filter].
  - intros Hf. by destruct (H2 Hf).
  - intros _. right. exists attr, values, n. split; [left|done].
  - destruct applied.
    2:{ by destruct (H2 eq_refl). }
    intros a vs n' [Heq|Hin]%elem_of_cons Hacc'; [|by eapply H4].
    injection Heq as -> ->. split; [done|].
    destruct Hacc' as (v & Hv & _ & _ & Hi & _).
    rewrite Hget in Hv. injection Hv as <-.
    rewrite Hint in Hi. injection Hi as <-.
    intros o Ho. eapply elem_of_sublist in Ho; [|exact H1].
    by apply list_elem_of_filter in Ho as [Ho _].
Qed.

(** X13: when [apply_object_filter] returns, the objects are a sublist of
    the ones passed in, in the same order; they are unchanged when [applied]
    is false; [applied] is true exactly when some attribute has an accepted
    parameter; and every object left has, for every accepted parameter, that
    value in the field. *)
Theorem apply_object_filter_narrows request attrs objects0 applied objects :
  apply_object_filter field isdigit int request attrs objects0
  = Ok (applied, objects) ->
  objects `sublist_of` objects0 ∧
  (applied = false -> objects = objects0) ∧
  (applied = true <->
   ∃ attr values n, (attr, values) ∈ attrs ∧ accepted isdigit int request attr values n) ∧
  (∀ attr values n, (attr, values) ∈ attrs ->
     accepted isdigit int request attr values n ->
     ∀ o, o ∈ objects -> field attr o = n).
Proof.
  intros Hrun.
  destruct (apply_object_filter_loop_spec _ _ _ _ _ _ Hrun)
    as (H1 & H2 & H3 & H4).
  split; [done|]. split; [intros Hf; by destruct (H2 Hf)|]. split.
  - split.
    + intros Ht. by destruct (H3 Ht).
    + intros (attr & values & n & Hin & Hacc). by destruct (H4 _ _ _ Hin Hacc).
  - intros attr values n Hin Hacc. by destruct (H4 _ _ _ Hin Hacc).
Qed.

Lemma apply_object_filter_loop_plain request attrs applied0 objects0 :
  (∀ attr values val, (attr, values) ∈ attrs ->
     GET request attr = Some val -> truthy val && isdigit val = false) ->
  apply_object_filter_loop field isdigit int request attrs applied0 objects0
  = Ok (applied0, objects0).
Proof.
  induction attrs as [|[attr values] attrs IH]; intros Hplain; simpl; [done|].
  assert (Hrest : apply_object_filter_loop field isdigit int request attrs
                    applied0 objects0 = Ok (applied0, objects0)).
  { apply IH. intros a vs v Hin. apply (Hplain a vs v). by right. }
  destruct (GET request attr) as [val|] eqn:Hget; [|done].
  rewrite (Hplain attr values val); [done|left|done].
Qed.

(** X14: when no attribute has a parameter that is a non-empty string of
    digits (the parameter is missing, empty or something else),
    [apply_object_filter] returns [False] and the objects as they were,
    whatever [int] would do on the text. *)
Theorem apply_object_filter_without_digits request attrs objects :
  (∀ attr values val, (attr, values) ∈ attrs ->
     GET request attr = Some val -> truthy val && isdigit val = false) ->
  apply_object_filter field isdigit int request attrs objects
  = Ok (false, objects).
Proof. apply apply_object_filter_loop_plain. Qed.

(** X15: [get_paginator_objects] leaves its decision in the request: after
    it, [get_paginator_per_page] returns [sys.maxsize] when a status or a
    type was accepted as a filter, and otherwise the page size of the base
    class, the objects then being those of the base class; the earlier value
    of [disable_paginator] plays no part. *)
Theorem filtered_listing_is_one_page super_objects Status_values Type_values
    maxsize super_per_page request objects request' :
  get_paginator_objects field isdigit int super_objects Status_values
    Type_values request = Ok (objects, request') ->
  GET request' = GET request ∧
  objects `sublist_of` super_objects ∧
  ((∃ n, accepted isdigit int request "status" Status_values n
         ∨ accepted isdigit int request "type" Type_values n) ->
   get_paginator_per_page maxsize super_per_page request' = maxsize) ∧
  ((∀ n, ¬ accepted isdigit int request "status" Status_values n
         ∧ ¬ accepted isdigit int request "type" Type_values n) ->
   get_paginator_per_page maxsize super_per_page request' = super_per_page
   ∧ objects = super_objects).
Proof.
  unfold get_paginator_objects.
  destruct (apply_object_filter _ _ _ _ _ _) as [[applied objs]|e] eqn:Hrun;
    [|done].
  intros [= <- <-]. simpl.
  destruct (apply_object_filter_narrows _ _ _ _ _ Hrun) as (H1 & H2 & H3 & _).
  split; [done|]. split; [done|]. unfold get_paginator_per_page. simpl. split.
  - intros [n Hacc]. rewrite (proj2 H3); [done|].
    destruct Hacc as [Hacc|Hacc].
    + exists "status", Status_values, n. split; [left|done].
    + exists "type", Type_values, n. split; [right; left|done].
  - intros Hnone. destruct applied.
    + destruct (proj1 H3 eq_refl) as (attr & values & n & Hin & Hacc).
      destruct (Hnone n) as [Hs Ht].
      apply elem_of_cons in Hin as [Heq|Hin].
      * injection Heq as -> ->. done.
      * apply list_elem_of_singleton in Hin. injection Hin as -> ->. done.
    + split; [done|]. by apply H2.
Qed.
End PepFacts.
(** ** The scenario of the views, checked against the theorems *)

Example index_scenario :
  index ViewsScenario.realms_registry ViewsScenario.rows
  = [ViewsScenario.articles_entry; ViewsScenario.events_entry].
Proof. reflexivity. Qed.

(** X7 on the realm of events, which has an external resource and no actual
    object. *)
Lemma index_entries_bounded_witness :
  ViewsScenario.events_entry
  ∈ index ViewsScenario.realms_registry ViewsScenario.rows ∧
  show_on_main (data_cls ViewsScenario.events_entry) = true ∧
  (length (data_additional ViewsScenario.events_entry) ≤ 5)%nat ∧
  data_main ViewsScenario.events_entry
  = head (get_actual (data_cls ViewsScenario.events_entry)) ∧
  (get_actual (data_cls ViewsScenario.events_entry) = [] ->
   data_additional ViewsScenario.events_entry = []).
Proof.
  assert (Hin : ViewsScenario.events_entry
                ∈ index ViewsScenario.realms_registry ViewsScenario.rows)
    by (apply list_elem_of_further, list_elem_of_here).
  split; [exact Hin|].
  apply (index_entries_bounded ViewsScenario.realms_registry ViewsScenario.rows
           ViewsScenario.events_entry Hin).
Defined.

(** X9 on the realm of articles: seven actual objects and one external
    resource left by the grouping. *)
Lemma index_realm_gets_block_witness :
  ("article", ViewsScenario.articles)
  ∈ dict_items ViewsScenario.realms_registry ∧
  show_on_main ViewsScenario.articles = true ∧
  get_actual ViewsScenario.articles = 1%nat :: [2; 3; 4; 5; 6; 7]%nat ∧
  ∃ rd,
    rd ∈ index ViewsScenario.realms_registry ViewsScenario.rows ∧
    data_main rd = Some 1%nat ∧
    data_additional rd
    = [OwnObject 2; OwnObject 3; OwnObject 4; OwnObject 5;
       External (ViewsScenario.external "article" 3)] ∧
    length (data_additional rd) = 5%nat.
Proof.
  assert (Hin : ("article", ViewsScenario.articles)
                ∈ dict_items ViewsScenario.realms_registry)
    by apply list_elem_of_here.
  split; [exact Hin|]. split; [reflexivity|]. split; [reflexivity|].
  destruct (index_realm_gets_block ViewsScenario.realms_registry
              ViewsScenario.rows "article" ViewsScenario.articles 1%nat
              [2; 3; 4; 5; 6; 7]%nat Hin eq_refl eq_refl)
    as (rd & exts & Hrd & Hexts & _ & Hmain & Hadd & Hfull).
  exists rd. split; [exact Hrd|]. split; [exact Hmain|].
  rewrite Hexts in Hadd, Hfull. split; [exact Hadd|].
  apply Hfull. simpl. lia.
Defined.

(** X10 on the rows of the scenario: the first row of "article" is lost. *)
Lemma index_externals_keeps_last_run_witness :
  filter (λ e, realm_name e ∈ dict_keys ViewsScenario.realms_registry)
    ViewsScenario.rows
  = [ViewsScenario.external "article" 1; ViewsScenario.external "event" 2]
    ++ [ViewsScenario.external "article" 3] ++ [] ∧
  dict_get (index_externals ViewsScenario.realms_registry ViewsScenario.rows)
    "article"
  = Some [ViewsScenario.external "article" 3].
Proof.
  split; [reflexivity|].
  apply (index_externals_keeps_last_run ViewsScenario.realms_registry
           ViewsScenario.rows
           [ViewsScenario.external "article" 1; ViewsScenario.external "event" 2]
           [ViewsScenario.external "article" 3] [] "article").
  - reflexivity.
  - discriminate.
  - apply Forall_cons. split; [reflexivity | apply Forall_nil_2].
  - apply Forall_nil_2.
  - intros e He. injection He as <-. discriminate.
Defined.

(** X13 on the request [?status=2]. *)
Lemma apply_object_filter_narrows_witness :
  apply_object_filter ViewsScenario.pep_field ViewsScenario.ascii_isdigit
    ViewsScenario.ascii_int (ViewsScenario.request_status "2")
    ViewsScenario.pep_attrs ViewsScenario.peps
  = Ok (true, [(2, 1); (2, 2)]%Z) ∧
  [(2, 1); (2, 2)]%Z `sublist_of` ViewsScenario.peps ∧
  ∀ o, o ∈ [(2, 1); (2, 2)]%Z -> ViewsScenario.pep_field "status" o = 2%Z.
Proof.
  assert (Hrun : apply_object_filter ViewsScenario.pep_field
                   ViewsScenario.ascii_isdigit ViewsScenario.ascii_int
                   (ViewsScenario.request_status "2") ViewsScenario.pep_attrs
                   ViewsScenario.peps
                 = Ok (true, [(2, 1); (2, 2)]%Z)) by reflexivity.
  destruct (apply_object_filter_narrows _ _ _ _ _ _ _ _ Hrun)
    as (Hsub & _ & _ & Hfield).
  split; [exact Hrun|]. split; [exact Hsub|].
  apply (Hfield "status" [1; 2; 3]%Z 2%Z); [apply list_elem_of_here|].
  exists "2". split; [reflexivity|]. split; [reflexivity|].
  split; [reflexivity|]. split; [reflexivity|].
  apply list_elem_of_further, list_elem_of_here.
Defined.

(** X14 on the request [?status=draft]. *)
Lemma apply_object_filter_without_digits_witness :
  (∀ attr values val, (attr, values) ∈ ViewsScenario.pep_attrs ->
     GET (ViewsScenario.request_status "draft") attr = Some val ->
     truthy val && ViewsScenario.ascii_isdigit val = false) ∧
  apply_object_filter ViewsScenario.pep_field ViewsScenario.ascii_isdigit
    ViewsScenario.ascii_int (ViewsScenario.request_status "draft")
    ViewsScenario.pep_attrs ViewsScenario.peps
  = Ok (false, ViewsScenario.peps).
Proof.
  assert (Hplain : ∀ attr (values : list Z) val,
            (attr, values) ∈ ViewsScenario.pep_attrs ->
            GET (ViewsScenario.request_status "draft") attr = Some val ->
            truthy val && ViewsScenario.ascii_isdigit val = false).
  { intros attr values val _. simpl.
    destruct (decide (attr = "status")); [|discriminate].
    intros Hval. injection Hval as <-. reflexivity. }
  split; [exact Hplain|].
  apply (apply_object_filter_without_digits ViewsScenario.pep_field
           ViewsScenario.ascii_isdigit ViewsScenario.ascii_int
           (ViewsScenario.request_status "draft") ViewsScenario.pep_attrs
           ViewsScenario.peps Hplain).
Defined.

(** X15 on the request [?status=2], with 20 rows to a page in the base
    class. *)
Lemma filtered_listing_is_one_page_witness :
  get_paginator_objects ViewsScenario.pep_field ViewsScenario.ascii_isdigit
    ViewsScenario.ascii_int ViewsScenario.peps [1; 2; 3]%Z [1; 2]%Z
    (ViewsScenario.request_status "2")
  = Ok ([(2, 1); (2, 2)]%Z,
        {| GET := GET (ViewsScenario.request_status "2");
           disable_paginator := true |}) ∧
  get_paginator_per_page 9223372036854775807 20
    {| GET := GET (ViewsScenario.request_status "2");
       disable_paginator := true |}
  = 9223372036854775807%Z.
Proof.
  assert (Hrun : get_paginator_objects ViewsScenario.pep_field
                   ViewsScenario.ascii_isdigit ViewsScenario.ascii_int
                   ViewsScenario.peps [1; 2; 3]%Z [1; 2]%Z
                   (ViewsScenario.request_status "2")
                 = Ok ([(2, 1); (2, 2)]%Z,
                       {| GET := GET (ViewsScenario.request_status "2");
                          disable_paginator := true |})) by reflexivity.
  destruct (filtered_listing_is_one_page _ _ _ _ _ _
              9223372036854775807%Z 20%Z _ _ _ Hrun) as (_ & _ & Hmax & _).
  split; [exact Hrun|]. apply Hmax. exists 2%Z. left.
  exists "2". split; [reflexivity|]. split; [reflexivity|].
  split; [reflexivity|]. split; [reflexivity|].
  apply list_elem_of_further, list_elem_of_here.
Defined.
End ViewsFacts.
